(** * Enexory API client ([enexory_api.py]): model and properties

    The program fetches a catalogue of data series, downloads the selected
    series, and post-processes the resulting table with pandas (resample,
    anomaly removal, forward fill).

    Conventions of the embedding.
    - Strings are [string]; [response.text] and
      [response.content.decode("utf-8")] are the same text.
    - A run threads a [world]: the requests posted so far and the warnings
      logged so far.  Exceptions are values of [exn]; a computation is a
      function [world -> result A * world].  [logging.info] and [print] have
      no influence on control flow and are left out.
    - Text is the sequence of the bytes of its UTF-8 encoding: [split] at
      [";"] or at a line break and the comparison of field names give the
      same result on bytes as on characters.  [int] applied to text depends
      on the interpreter and is a parameter ([Runtime]).
    - The catalogue [data_name_by_id] is a [gmap Z string].
    - A table cell is an [option Q]: [None] is pandas' NaN (a missing value),
      [Some q] a number.  Numbers are exact rationals, that is, float
      rounding and overflow are abstracted away; arithmetic on a NaN gives
      NaN and every comparison with a NaN is false, as in pandas.  The
      statements about all tables below do not depend on the arithmetic
      beyond this treatment of NaN, or are about the exact mean; the sample
      tables hold small integers, on which the float computations of the
      program are exact or far from the threshold.
    - A timestamp is the number of nanoseconds since the epoch ([Z]). *)

From Stdlib Require Import ZArith QArith Qabs String Ascii List Lia Lqa.
From stdpp Require Import gmap strings list pretty.

Local Open Scope string_scope.
Local Open Scope Z_scope.
Local Open Scope list_scope.

(** ** Python built-ins used by the client *)

Module Py.

(** [s.split(sep)] for a one-character separator: never empty, the empty
    string gives one empty field, a trailing separator a last empty field. *)
Fixpoint split (sep : ascii) (s : string) : list string :=
  match s with
  | EmptyString => [EmptyString]
  | String c s' =>
      if Ascii.eqb c sep then EmptyString :: split sep s'
      else match split sep s' with
           | [] => [String c EmptyString]
           | f :: fs => String c f :: fs
           end
  end.

(** [l.index(x)]: position of the first occurrence; [None] stands for the
    [ValueError] raised when [x] is not in the list. *)
Fixpoint index (x : string) (l : list string) : option nat :=
  match l with
  | [] => None
  | y :: l' => if String.eqb y x then Some O else S <$> index x l'
  end.

(** ASCII white space around a decimal literal: tab, line feed, vertical
    tab, form feed, carriage return and space. *)
Definition is_space (c : ascii) : bool :=
  let n := nat_of_ascii c in
  ((9 <=? n) && (n <=? 13) || (n =? 32))%nat.

Definition digit_of (c : ascii) : option Z :=
  let n := nat_of_ascii c in
  if ((48 <=? n) && (n <=? 57))%nat then Some (Z.of_nat n - 48) else None.

Fixpoint lstrip (s : list ascii) : list ascii :=
  match s with
  | c :: s' => if is_space c then lstrip s' else s
  | [] => []
  end.

Definition strip (s : list ascii) : list ascii :=
  rev (lstrip (rev (lstrip s))).

(** Decimal digits with single underscores allowed between digits;
    [prev] tells whether the previous character was a digit. *)
Fixpoint digits (acc : Z) (prev : bool) (s : list ascii) : option Z :=
  match s with
  | [] => if prev then Some acc else None
  | c :: s' =>
      if Ascii.eqb c "_"%char then
        if prev then digits acc false s' else None
      else
        match digit_of c with
        | Some d => digits (10 * acc + d) true s'
        | None => None
        end
  end.

(** A reader of decimal literals in ASCII: surrounding white space, an
    optional sign, digits.  It serves as the integer reader of the sample
    runs below; it is not the interpreter's [int], which also knows the
    digits and the white space of Unicode and may limit the number of
    digits. *)
Definition ascii_decimal (s : string) : option Z :=
  match strip (list_ascii_of_string s) with
  | "-"%char :: r => Z.opp <$> digits 0 false r
  | "+"%char :: r => digits 0 false r
  | r => digits 0 false r
  end.

(** [c in s] for a character. *)
Fixpoint occurs (c : ascii) (s : string) : Prop :=
  match s with
  | EmptyString => False
  | String c' s' => c' = c ∨ occurs c s'
  end.

(** [max] of a list of indices ([max([a, b])]). *)
Definition max (a b : nat) : nat := Nat.max a b.

End Py.

(** ** The interpreter's built-ins that the model does not fix *)

(** [py_int s] is [int(s)] applied to text, [None] standing for the
    [ValueError].  Which texts it accepts depends on the interpreter (the
    decimal digits and the white space of its Unicode tables, its limit on
    the number of digits), so it is a parameter of the model: every
    statement below holds for every such function. *)
Class Runtime : Type := mkRuntime {
  py_int : string → option Z
}.

(** ** Requests, responses, exceptions and the run monad *)

Inductive request : Type :=
| ReqAllDataTypes (key : string)
| ReqGetData (key : string) (data_ids : list Z) (date_from date_to : string).

Record response : Type := mkResponse {
  status_code : Z;
  text : string
}.

Inductive exn : Type :=
| Exception (msg : string)   (* raised by [check_response_status] *)
| ValueError (arg : string)  (* [list.index], a miss *)
| KeyError (key : Z)         (* [data_name_by_id[data_id]], a miss *)
| ZlibError                  (* [zlib.decompress] *)
| ParserError.               (* [pd.read_csv] *)

Inductive result (A : Type) : Type :=
| Ok (a : A)
| Raise (e : exn).
Arguments Ok {A} a.
Arguments Raise {A} e.

(** Fields of a line whose id could not be converted, as passed to
    [logging.warning]. *)
Abbreviation warning := (list string).

Record world : Type := mkWorld {
  requests : list request;
  warnings : list warning
}.

Definition M (A : Type) : Type := world -> result A * world.

Definition ret {A} (a : A) : M A := fun w => (Ok a, w).

Definition raise {A} (e : exn) : M A := fun w => (Raise e, w).

Definition bind {A B} (c : M A) (k : A -> M B) : M B :=
  fun w => match c w with
           | (Ok a, w') => k a w'
           | (Raise e, w') => (Raise e, w')
           end.

#[global] Instance M_ret : MRet M := @ret.
#[global] Instance M_bind : MBind M := fun A B k c => bind c k.

Definition log_warning (fields : warning) : M unit :=
  fun w => (Ok tt, mkWorld (requests w) (warnings w ++ [fields])).

Definition lift_option {A} (e : exn) (o : option A) : M A :=
  match o with
  | Some a => ret a
  | None => raise e
  end.

(** [check_response_status]: the message is
    ["Response status code:{}\n\t{}".format(status_code, text)]. *)
Definition nl_tab : string :=
  String (ascii_of_nat 10) (String (ascii_of_nat 9) EmptyString).

Definition status_message (r : response) : string :=
  "Response status code:" +:+ pretty (status_code r) +:+ nl_tab +:+ text r.

Definition check_response_status (r : response) : M unit :=
  if decide (status_code r = 200) then ret tt
  else raise (Exception (status_message r)).

(** ** The catalogue: [get_all_data_types] *)

(** Variables of the parsing loop.  The two indices are unbound in Python
    until the header line has been read; [header] guards every read. *)
Record loop_state : Type := mkLoop {
  header : bool;
  data_name_index : nat;
  api_id_index : nat;
  data_name_by_id : gmap Z string
}.

Definition loop_init : loop_state := mkLoop true O O ∅.

Definition semicolon : ascii := ";"%char.
Definition newline : ascii := ascii_of_nat 10.

Section Catalogue.
Context {R : Runtime}.

(** One iteration of [for line in lines]. *)
Definition loop_body (st : loop_state) (line : string) : M loop_state :=
  let fields := Py.split semicolon line in
  if header st then
    dn ← lift_option (ValueError "data_name") (Py.index "data_name" fields);
    ai ← lift_option (ValueError "api_id") (Py.index "api_id" fields);
    ret (mkLoop false dn ai (data_name_by_id st))
  else if (Py.max (api_id_index st) (data_name_index st) <? length fields)%nat then
    let api_id := fields !!! api_id_index st in
    let name := fields !!! data_name_index st in
    match py_int api_id with
    | Some k =>
        ret (mkLoop false (data_name_index st) (api_id_index st)
               (<[k := name]> (data_name_by_id st)))
    | None =>
        log_warning fields;;
        ret (mkLoop false (data_name_index st) (api_id_index st)
               (data_name_by_id st))
    end
  else ret (mkLoop false (data_name_index st) (api_id_index st)
              (data_name_by_id st)).

Fixpoint loop (st : loop_state) (lines : list string) : M loop_state :=
  match lines with
  | [] => ret st
  | line :: rest => st' ← loop_body st line; loop st' rest
  end.

End Catalogue.

Section Network.
Context {R : Runtime}.

(** The remote service: the response to each request. *)
Variable server : request -> response.

Definition post (rq : request) : M response :=
  fun w => (Ok (server rq), mkWorld (requests w ++ [rq]) (warnings w)).

Definition get_all_data_types (api_key : string) : M (gmap Z string) :=
  r ← post (ReqAllDataTypes api_key);
  check_response_status r;;
  let lines := Py.split newline (text r) in
  st ← loop loop_init lines;
  ret (data_name_by_id st).

End Network.

(** ** Tables: the pandas operations used by [main] *)

Abbreviation cell := (option Q).

Record row : Type := mkRow {
  stamp : Z;           (* index entry: nanoseconds since the epoch *)
  cells : list cell    (* one cell per column *)
}.

Record DataFrame : Type := mkFrame {
  columns : list string;
  rows : list row
}.

(** Every row has one cell per column. *)
Definition well_formed (df : DataFrame) : Prop :=
  ∀ r, r ∈ rows df → length (cells r) = length (columns df).

Definition Qltb (x y : Q) : bool := negb (Qle_bool y x).

(** The square root of a non-negative rational, kept exactly through its
    radicand: [Sqrt r] stands for the real number √r. *)
Inductive surd : Type := Sqrt (r : Q).

Definition radicand (s : surd) : Q := let 'Sqrt r := s in r.

(** [s * k] for a rational [k >= 0]: √r · k = √(r · k²). *)
Definition surd_mul (s : surd) (k : Q) : surd := Sqrt (radicand s * (k * k)).

(** [x < s]: x < √r holds when x is negative or x² < r. *)
Definition Qlt_surd (x : Q) (s : surd) : bool :=
  Qltb x 0 || Qltb (x * x) (radicand s).

(** Arithmetic and comparison on cells: NaN propagates, comparisons with a
    NaN are false. *)
Definition cell_sub (a b : cell) : cell :=
  match a, b with
  | Some x, Some y => Some (x - y)%Q
  | _, _ => None
  end.

Definition cell_abs (a : cell) : cell := Qabs <$> a.

Definition cell_lt (a : cell) (d : option surd) : bool :=
  match a, d with
  | Some x, Some s => Qlt_surd x s
  | _, _ => false
  end.

(** [df[col]] at one row.  [pd.read_csv] refuses duplicate column names, so
    a label stands for one position; columns are addressed by position. *)
Definition at_col (j : nat) (r : row) : cell := default None (cells r !! j).

Definition column (j : nat) (df : DataFrame) : list cell :=
  at_col j <$> rows df.

(** The values that are not NaN. *)
Definition present (s : list cell) : list Q := omap id s.

Definition Qsum (l : list Q) : Q := foldr Qplus 0%Q l.

Definition Qlen (l : list Q) : Q := inject_Z (Z.of_nat (length l)).

(** [Series.mean()]: NaN values are skipped; NaN when nothing is left. *)
Definition mean (s : list cell) : cell :=
  match present s with
  | [] => None
  | p => Some (Qsum p / Qlen p)%Q
  end.

(** [Series.var()] with pandas' default [ddof=1]: NaN for fewer than two
    values. *)
Definition var (s : list cell) : cell :=
  let p := present s in
  match mean s with
  | Some m =>
      if (length p <=? 1)%nat then None
      else Some (Qsum ((λ x, (x - m) * (x - m))%Q <$> p) / (Qlen p - 1))%Q
  | None => None
  end.

(** The entries of [Series.describe()] that [main] reads. *)
Record description : Type := mkDescription {
  d_count : nat;
  d_mean : cell;
  d_std : option surd
}.

Definition describe (s : list cell) : description :=
  mkDescription (length (present s)) (mean s) (Sqrt <$> var s).

(** [df.loc[mask]]: the rows where the mask is true, in order. *)
Definition loc (mask : row → bool) (df : DataFrame) : DataFrame :=
  mkFrame (columns df) (filter (λ r, mask r = true) (rows df)).

(** *** Example 4: [df.resample(timedelta(hours=4)).mean()] *)

Definition nanos_per_second : Z := 1000000000.
Definition day : Z := 86400 * nanos_per_second.
Definition timedelta_hours (h : Z) : Z := h * 3600 * nanos_per_second.
Definition timedelta_minutes (m : Z) : Z := m * 60 * nanos_per_second.

(** [Timestamp.normalize()]: midnight of the same day. *)
Definition normalize (t : Z) : Z := t - t `mod` day.

(** The first and last bin edge for a fixed frequency, bins closed on the
    left and anchored at midnight of the first day (pandas' defaults
    [closed='left'], [origin='start_day']); [first] and [last] are the
    smallest and largest index entry. *)
Definition range_edges (freq first last : Z) : Z * Z :=
  let origin := normalize first in
  let foffset := (first - origin) `mod` freq in
  let loffset := (last - origin) `mod` freq in
  let fresult := if 0 <? foffset then first - foffset else first in
  let lresult := if 0 <? loffset then last + (freq - loffset) else last + freq in
  (fresult, lresult).

(** Left edges of the bins between the two outer edges. *)
Definition bin_labels (freq fresult lresult : Z) : list Z :=
  (λ k, fresult + Z.of_nat k * freq) <$>
    seq 0 (Z.to_nat ((lresult - fresult) `div` freq)).

Definition in_bin (freq lo : Z) (r : row) : bool :=
  (lo <=? stamp r) && (stamp r <? lo + freq).

(** The mean of every column over the rows of one bin. *)
Definition bin_mean (ncols : nat) (rs : list row) : list cell :=
  (λ j, mean (at_col j <$> rs)) <$> seq 0 ncols.

(** One output row per bin from the bin of the earliest row to the bin of
    the latest row; a bin without rows gets NaN in every column.  pandas
    sorts the rows by index first, which does not change the rows of a bin
    nor, for exact numbers, their mean. *)
Definition resample (freq : Z) (df : DataFrame) : DataFrame :=
  mkFrame (columns df)
    match stamp <$> rows df with
    | [] => []
    | t :: ts =>
        let '(fresult, lresult) :=
          range_edges freq (foldr Z.min t ts) (foldr Z.max t ts) in
        (λ lo, mkRow lo (bin_mean (length (columns df))
                           (filter (λ r, in_bin freq lo r = true) (rows df))))
          <$> bin_labels freq fresult lresult
    end.

(** *** Example 5: removing anomalies *)

Inductive report : Type :=
| Removed (n : nat) (col : string)   (* "Removed {} anomalies from column '{}'" *)
| NoAnomalies (col : string).        (* "Could not find any anomalies on column '{}'" *)

(** Lines 119-122: the rows kept for column [j]. *)
Definition keep (j : nat) (df : DataFrame) : DataFrame :=
  let describe := describe (column j df) in
  let mean := d_mean describe in
  let max_dev := (λ s, surd_mul s 10) <$> d_std describe in
  loc (λ r, cell_lt (cell_abs (cell_sub (at_col j r) mean)) max_dev) df.

(** One iteration of [for col in df]. *)
Definition anomaly_pass (acc : DataFrame * list report) (j : nat)
  : DataFrame * list report :=
  let '(df, out) := acc in
  let col := default EmptyString (columns df !! j) in
  let row_count := length (rows df) in
  let df' := keep j df in
  let new_row_count := length (rows df') in
  (df', (out ++ [if decide (new_row_count ≠ row_count)
                 then Removed (row_count - new_row_count) col
                 else NoAnomalies col])%list).

(** The loop over a given sequence of column positions. *)
Definition remove_anomalies_over (cols : list nat) (df : DataFrame)
  : DataFrame * list report :=
  foldl anomaly_pass (df, []) cols.

(** [for col in df]: the columns from left to right. *)
Definition remove_anomalies (df : DataFrame) : DataFrame * list report :=
  remove_anomalies_over (seq 0 (length (columns df))) df.

(** *** Example 6: [df.fillna(method='ffill')] *)

(** Fill one row from the last known values and return the new ones. *)
Definition fill_row (last : list cell) (r : row) : row :=
  mkRow (stamp r)
    (imap (λ j c, match c with
                  | Some _ => c
                  | None => default None (last !! j)
                  end) (cells r)).

Fixpoint ffill_rows (last : list cell) (rs : list row) : list row :=
  match rs with
  | [] => []
  | r :: rs' => let r' := fill_row last r in r' :: ffill_rows (cells r') rs'
  end.

Definition ffill (df : DataFrame) : DataFrame :=
  mkFrame (columns df) (ffill_rows [] (rows df)).

(** ** [get_data] and [main] *)

(** [csv_data.replace(";\n", "\n")]. *)
Fixpoint drop_trailing_separators (s : string) : string :=
  match s with
  | EmptyString => EmptyString
  | String c t =>
      match t with
      | String c' t' =>
          if Ascii.eqb c semicolon && Ascii.eqb c' newline
          then String newline (drop_trailing_separators t')
          else String c (drop_trailing_separators t)
      | EmptyString => s
      end
  end.

Record arguments : Type := mkArguments {
  api_key : string;
  data_id : list Z;      (* [[]] when the option is absent *)
  date_from : string;    (* already in the form YYYY-MM-DD *)
  date_to : string
}.

Inductive output : Type :=
| Listing (data_name_by_id : gmap Z string)
| Table (df : DataFrame) (reports : list report).

Section Client.
Context {R : Runtime}.

Variable server : request → response.
(** [zlib.decompress(content, -zlib.MAX_WBITS)] followed by the decoding. *)
Variable inflate : string → option string.
(** [pd.read_csv] with the given column names. *)
Variable read_csv : string → list string → option DataFrame.

Definition get_data (api_key : string) (data_ids : list Z)
    (date_from date_to : string) : M string :=
  r ← post server (ReqGetData api_key data_ids date_from date_to);
  check_response_status r;;
  lift_option ZlibError (inflate (text r)).

(** [[data_name_by_id[data_id] for data_id in args.data_id]]. *)
Fixpoint lookup_names (data_name_by_id : gmap Z string) (ids : list Z)
  : M (list string) :=
  match ids with
  | [] => mret []
  | i :: ids' =>
      name ← lift_option (KeyError i) (data_name_by_id !! i);
      names ← lookup_names data_name_by_id ids';
      mret (name :: names)
  end.

Definition main (args : arguments) : M output :=
  data_name_by_id ← get_all_data_types server (api_key args);
  match data_id args with
  | _ :: _ =>
      data_names ← lookup_names data_name_by_id (data_id args);
      csv_data ← get_data (api_key args) (data_id args)
                   (date_from args) (date_to args);
      let data := drop_trailing_separators csv_data in
      df ← lift_option ParserError (read_csv data ("date_time" :: data_names));
      let df := resample (timedelta_hours 4) df in
      let '(df, reports) := remove_anomalies df in
      let df := ffill df in
      mret (Table df reports)
  | [] => mret (Listing data_name_by_id)
  end.

End Client.

(** ** Reading of the catalogue lines, for the statements below *)

Definition fields_of (line : string) : list string := Py.split semicolon line.

Section Reading.
Context {R : Runtime}.

(** The entry a data line contributes, the header having given the
    positions [dn] of the name and [ai] of the id. *)
Definition entry (dn ai : nat) (line : string) : option (Z * string) :=
  let fs := fields_of line in
  if (Py.max ai dn <? length fs)%nat
  then (λ k, (k, fs !!! dn)) <$> py_int (fs !!! ai)
  else None.

(** The warning a data line causes. *)
Definition line_warning (dn ai : nat) (line : string) : option warning :=
  let fs := fields_of line in
  if (Py.max ai dn <? length fs)%nat
  then match py_int (fs !!! ai) with None => Some fs | Some _ => None end
  else None.

Definition add_entry (dn ai : nat) (m : gmap Z string) (line : string)
  : gmap Z string :=
  match entry dn ai line with
  | Some (k, name) => <[k := name]> m
  | None => m
  end.

Definition catalog_of (dn ai : nat) (m : gmap Z string) (lines : list string)
  : gmap Z string := foldl (add_entry dn ai) m lines.

Definition warned (dn ai : nat) (lines : list string) : list warning :=
  omap (line_warning dn ai) lines.

End Reading.

(** The world once a request has been posted. *)
Definition posted (w : world) (rq : request) : world :=
  mkWorld (requests w ++ [rq]) (warnings w).

(** [Series.fillna(method='ffill')] on one column, [prev] being the last
    value known so far. *)
Fixpoint ffill_column (prev : cell) (s : list cell) : list cell :=
  match s with
  | [] => []
  | c :: s' =>
      let c' := match c with Some _ => c | None => prev end in
      c' :: ffill_column c' s'
  end.

(** The index of a table with one row every 15 minutes over the day that
    starts at [d0]: 00:00, 00:15, ..., 23:45. *)
Definition quarter_hours (d0 : Z) : list Z :=
  (λ k, d0 + Z.of_nat k * timedelta_minutes 15) <$> seq 0 96.

(** "One row per non-empty bucket", read as: every output row is the row of
    a bucket that holds at least one source row. *)
Definition only_nonempty_buckets (freq : Z) (df : DataFrame) : Prop :=
  ∀ lo, lo ∈ stamp <$> rows (resample freq df) →
        ∃ r, r ∈ rows df ∧ in_bin freq lo r = true.

(** The rows of [before] that are no longer in [after], by index entry. *)
Definition removed_stamps (before after : DataFrame) : list Z :=
  filter (λ t, t ∉ stamp <$> rows after) (stamp <$> rows before).

(** The same table with the columns in the opposite order. *)
Definition swap_columns (df : DataFrame) : DataFrame :=
  mkFrame (reverse (columns df))
    ((λ r, mkRow (stamp r) (reverse (cells r))) <$> rows df).

(** ** Sample inputs *)

Definition num (z : Z) : cell := Some (inject_Z z).

Definition at_hour (h : Z) (cs : list cell) : row :=
  mkRow (timedelta_hours h) cs.

(** One column with the same value in every row. *)
Definition constant_column : DataFrame :=
  mkFrame ["A"] [at_hour 0 [num 5]; at_hour 4 [num 5]; at_hour 8 [num 5]].

(** One column, values 1, NaN, 2, 3. *)
Definition column_with_gap : DataFrame :=
  mkFrame ["A"]
    [at_hour 0 [num 1]; at_hour 4 [None]; at_hour 8 [num 2]; at_hour 12 [num 3]].

(** One column: 1, NaN and 4 in the first four hours, then two rows without
    a value in the next four. *)
Definition mixed_day : DataFrame :=
  mkFrame ["A"]
    [at_hour 0 [num 1]; at_hour 1 [None]; at_hour 2 [num 4];
     at_hour 4 [None]; at_hour 5 [None]].

(** Two rows, at 00:00 and at 12:00 of the first day. *)
Definition sparse_day : DataFrame :=
  mkFrame ["A"] [at_hour 0 [num 1]; at_hour 12 [num 3]].

(** One row every 15 minutes over the first day, the value being the
    number of the row. *)
Definition quarter_hour_day : DataFrame :=
  mkFrame ["A"]
    ((λ k, mkRow (Z.of_nat k * timedelta_minutes 15) [num (Z.of_nat k)])
       <$> seq 0 96).

(** One column, values 1, NaN, NaN, 2, NaN. *)
Definition column_to_fill : DataFrame :=
  mkFrame ["A"]
    [at_hour 0 [num 1]; at_hour 4 [None]; at_hour 8 [None];
     at_hour 12 [num 2]; at_hour 16 [None]].

(** 102 rows and two columns: A is 102 in row 0 and 0 elsewhere, B is 102
    in row 1 and 0 elsewhere. *)
Definition spike_frame : DataFrame :=
  mkFrame ["A"; "B"]
    ((λ k, mkRow (Z.of_nat k * timedelta_hours 4)
             [num (if (k =? 0)%nat then 102 else 0);
              num (if (k =? 1)%nat then 102 else 0)]) <$> seq 0 102).

Definition line_feed : string := String newline EmptyString.

(** A catalogue body: header, an entry, a line with a bad id, a short line,
    and a second entry for id 1. *)
Definition sample_body : string :=
  "api_id;data_name;unit" +:+ line_feed +:+
  "1;Load;MW" +:+ line_feed +:+
  "x;Bad;MW" +:+ line_feed +:+
  "2" +:+ line_feed +:+
  "1;Load forecast;MW".

Definition sample_server (rq : request) : response := mkResponse 200 sample_body.

Definition no_inflate (s : string) : option string := None.

Definition no_read_csv (s : string) (names : list string) : option DataFrame :=
  None.

Definition fresh_world : world := mkWorld [] [].

(** The integer reader of the sample runs. *)
Definition sample_runtime : Runtime := mkRuntime Py.ascii_decimal.

Definition sample_arguments : arguments :=
  mkArguments "secret" [1; 7] "2024-01-01" "2024-01-11".

(** ** Further definitions for the statements below *)

(** [sep.join(l)]. *)
Fixpoint join (sep : ascii) (l : list string) : string :=
  match l with
  | [] => EmptyString
  | f :: l' =>
      match l' with
      | [] => f
      | _ :: _ => f +:+ String sep (join sep l')
      end
  end.

(** A line without its last character when that is a semicolon. *)
Fixpoint chop (s : string) : string :=
  match s with
  | EmptyString => EmptyString
  | String c t =>
      match t with
      | EmptyString => if Ascii.eqb c semicolon then EmptyString else s
      | String _ _ => String c (chop t)
      end
  end.

(** [chop] on every line that is followed by a line break. *)
Fixpoint chop_all_but_last (ls : list string) : list string :=
  match ls with
  | [] => []
  | l :: ls' =>
      match ls' with
      | [] => [l]
      | _ :: _ => chop l :: chop_all_but_last ls'
      end
  end.

(** A catalogue body written from a list of entries: the header
    [api_id;data_name], then one line [id;name] per entry. *)
Definition render_line (e : Z * string) : string :=
  pretty e.1 +:+ String semicolon e.2.

Definition render_catalog (entries : list (Z * string)) : string :=
  join newline ("api_id;data_name" :: (render_line <$> entries)).

(** The number of rows a report says were removed. *)
Definition removed_count (r : report) : nat :=
  match r with
  | Removed n _ => n
  | NoAnomalies _ => 0
  end.

(** ** Further sample inputs *)

(** A server whose responses have status 200 and an empty body. *)
Definition empty_server (rq : request) : response := mkResponse 200 EmptyString.

Definition sample_entries : list (Z * string) :=
  [(1, "Load"); (-2, "Wind"); (1, "Load forecast")].

(** A server that answers with the catalogue written from [sample_entries]. *)
Definition rendered_server (rq : request) : response :=
  mkResponse 200 (render_catalog sample_entries).

(** One column and a single row. *)
Definition single_row : DataFrame := mkFrame ["A"] [at_hour 0 [num 7]].




(** * Properties *)

Section Properties.
Context {R : Runtime}.

(** ** The status check *)

Lemma pretty_N_char_not_newline n : pretty_N_char n ≠ newline.
Proof. unfold pretty_N_char, newline. repeat case_match; discriminate. Qed.

Lemma pretty_N_go_newline_free x s :
  ¬ Py.occurs newline s → ¬ Py.occurs newline (pretty_N_go x s).
Proof.
  revert s. induction (N.lt_wf_0 x) as [x _ IH]; intros s Hs.
  assert (x = 0 ∨ 0 < x)%N as [->|Hx] by lia.
  - by rewrite pretty_N_go_0.
  - rewrite pretty_N_go_step by done. apply IH.
    + by apply N.div_lt.
    + simpl. intros [Hc|Hc]; [by apply pretty_N_char_not_newline in Hc | auto].
Qed.

(** The decimal rendering of an integer has no line break. *)
Lemma pretty_Z_newline_free (z : Z) : ¬ Py.occurs newline (pretty z).
Proof.
  assert (∀ p : positive, ¬ Py.occurs newline (pretty p)) as Hpos.
  { intros p. unfold pretty, pretty_positive, pretty, pretty_N.
    case_decide; [done|]. apply pretty_N_go_newline_free. simpl. tauto. }
  destruct z as [|p|p]; unfold pretty, pretty_Z.
  - simpl. intros [H|[]]. discriminate.
  - apply Hpos.
  - simpl. intros [H|H]; [discriminate | by apply (Hpos p)].
Qed.

Lemma app_sep_inj c a a' b b' :
  ¬ Py.occurs c a → ¬ Py.occurs c a' →
  a +:+ String c b = a' +:+ String c b' → a = a' ∧ b = b'.
Proof.
  revert a'. induction a as [|x a IH]; intros [|x' a'] Ha Ha' Heq; simpl in *.
  - by injection Heq.
  - injection Heq as -> _. tauto.
  - injection Heq as -> _. tauto.
  - injection Heq as -> Heq. apply IH in Heq as [-> ->]; tauto.
Qed.

(** The message determines the status code and the body. *)
Lemma status_message_inj r r' : status_message r = status_message r' → r = r'.
Proof.
  unfold status_message, nl_tab. intros Heq.
  apply (inj (String.app _)) in Heq.
  apply app_sep_inj in Heq as [Hs Ht]; [|apply pretty_Z_newline_free..].
  apply (inj pretty) in Hs. injection Ht as Ht.
  destruct r, r'; simpl in *; congruence.
Qed.

Lemma check_response_status_200 r w :
  status_code r = 200 → check_response_status r w = (Ok tt, w).
Proof. intros H. unfold check_response_status. by case_decide. Qed.

Lemma check_response_status_other r w :
  status_code r ≠ 200 →
  check_response_status r w = (Raise (Exception (status_message r)), w).
Proof. intros H. unfold check_response_status. by case_decide. Qed.

(** The parsing loop raises nothing but the [ValueError] of [list.index]. *)
Lemma loop_body_raises st line w e w' :
  loop_body st line w = (Raise e, w') → ∃ a, e = ValueError a.
Proof.
  unfold loop_body. destruct (header st).
  - destruct (Py.index "data_name" _), (Py.index "api_id" _);
      cbn; intros [= <- <-]; eauto.
  - case_match; [case_match|]; cbn; discriminate.
Qed.

Lemma loop_raises lines st w e w' :
  loop st lines w = (Raise e, w') → ∃ a, e = ValueError a.
Proof.
  revert st w. induction lines as [|line rest IH]; intros st w; cbn.
  - discriminate.
  - unfold mbind, M_bind, bind.
    destruct (loop_body st line w) as [[st'|e'] w1] eqn:Hb.
    + apply IH.
    + intros [= <- <-]. eapply loop_body_raises, Hb.
Qed.

(** C7.  The status check raises exactly when the status code is not 200 and
    leaves a 200 response alone; the exception it raises is built from the
    status code and the body text, and both can be read back from it.  Each
    fetcher posts one request and fails with that exception exactly when the
    response status is not 200. *)
Theorem check_response_status_raises_iff_not_200 :
  ∀ (r : response) (w : world),
    ((∃ e w', check_response_status r w = (Raise e, w')) ↔ status_code r ≠ 200)
    ∧ (check_response_status r w = (Ok tt, w) ↔ status_code r = 200)
    ∧ (∀ e w', check_response_status r w = (Raise e, w') →
         w' = w ∧ e = Exception (status_message r) ∧
         ∀ r', Exception (status_message r') = e →
               status_code r' = status_code r ∧ text r' = text r)
    ∧ (∀ server key,
         server (ReqAllDataTypes key) = r →
         ((∃ msg w', get_all_data_types server key w = (Raise (Exception msg), w'))
          ↔ status_code r ≠ 200)
         ∧ (status_code r ≠ 200 →
            get_all_data_types server key w
            = (Raise (Exception (status_message r)),
               mkWorld (requests w ++ [ReqAllDataTypes key]) (warnings w))))
    ∧ (∀ server inflate key ids d1 d2,
         server (ReqGetData key ids d1 d2) = r →
         ((∃ msg w', get_data server inflate key ids d1 d2 w
                     = (Raise (Exception msg), w'))
          ↔ status_code r ≠ 200)
         ∧ (status_code r ≠ 200 →
            get_data server inflate key ids d1 d2 w
            = (Raise (Exception (status_message r)),
               mkWorld (requests w ++ [ReqGetData key ids d1 d2]) (warnings w)))).
Proof.
  intros r w. split_and!.
  - unfold check_response_status. case_decide; cbn; split.
    + intros (e & w' & [=]).
    + done.
    + done.
    + eauto.
  - unfold check_response_status. case_decide; cbn; split; done.
  - intros e w'. unfold check_response_status. case_decide; cbn; [done|].
    intros [= <- <-]. split_and!; [done..|].
    intros r' Hm.
    assert (status_message r' = status_message r) as Hs by congruence.
    apply status_message_inj in Hs. by subst.
  - intros server key Hr.
    unfold get_all_data_types, post, mbind, M_bind, bind. rewrite Hr.
    destruct (decide (status_code r = 200)) as [H200|H200].
    + rewrite check_response_status_200 by done. split; [|done].
      split; [|done]. intros (msg & w' & Hrun).
      destruct (loop _ _ _) as [[st|e] w1] eqn:Hl; [discriminate|].
      apply loop_raises in Hl as [a ->]. discriminate.
    + rewrite check_response_status_other by done. split; [|done].
      split; [done|]. eauto.
  - intros server inflate key ids d1 d2 Hr.
    unfold get_data, post, mbind, M_bind, bind. rewrite Hr.
    destruct (decide (status_code r = 200)) as [H200|H200].
    + rewrite check_response_status_200 by done. split; [|done].
      split; [|done]. intros (msg & w' & Hrun).
      destruct (inflate _); discriminate.
    + rewrite check_response_status_other by done. split; [|done].
      split; [done|]. eauto.
Qed.

(** ** The catalogue *)

Lemma loop_body_data dn ai m line w :
  loop_body (mkLoop false dn ai m) line w
  = (Ok (mkLoop false dn ai (add_entry dn ai m line)),
     mkWorld (requests w)
       (warnings w ++ option_list (line_warning dn ai line))).
Proof.
  unfold loop_body, add_entry, entry, line_warning, fields_of.
  cbn [header api_id_index data_name_index data_name_by_id].
  destruct (Py.max ai dn <? _)%nat; [destruct (py_int _)|]; cbn;
    rewrite ?app_nil_r; by destruct w.
Qed.

Lemma loop_cons st line rest w :
  loop st (line :: rest) w
  = match loop_body st line w with
    | (Ok st', w') => loop st' rest w'
    | (Raise e, w') => (Raise e, w')
    end.
Proof. reflexivity. Qed.

Lemma loop_data dn ai lines m w :
  loop (mkLoop false dn ai m) lines w
  = (Ok (mkLoop false dn ai (catalog_of dn ai m lines)),
     mkWorld (requests w) (warnings w ++ warned dn ai lines)).
Proof.
  revert m w. induction lines as [|line rest IH]; intros m w.
  - cbn. rewrite app_nil_r. by destruct w.
  - rewrite loop_cons, loop_body_data, IH. cbn.
    unfold warned. cbn. destruct (line_warning dn ai line); cbn;
      by rewrite <-?app_assoc, ?app_nil_r.
Qed.

Lemma loop_header hdr lines dn ai w :
  Py.index "data_name" (fields_of hdr) = Some dn →
  Py.index "api_id" (fields_of hdr) = Some ai →
  loop loop_init (hdr :: lines) w
  = (Ok (mkLoop false dn ai (catalog_of dn ai ∅ lines)),
     mkWorld (requests w) (warnings w ++ warned dn ai lines)).
Proof.
  intros Hdn Hai. rewrite loop_cons. unfold loop_body, loop_init.
  cbn [header data_name_by_id]. unfold fields_of in *. rewrite Hdn, Hai.
  cbn. apply loop_data.
Qed.

Lemma get_all_data_types_200 server key w hdr lines dn ai :
  status_code (server (ReqAllDataTypes key)) = 200 →
  Py.split newline (text (server (ReqAllDataTypes key))) = hdr :: lines →
  Py.index "data_name" (fields_of hdr) = Some dn →
  Py.index "api_id" (fields_of hdr) = Some ai →
  get_all_data_types server key w
  = (Ok (catalog_of dn ai ∅ lines),
     mkWorld (requests w ++ [ReqAllDataTypes key])
       (warnings w ++ warned dn ai lines)).
Proof.
  intros H200 Hsplit Hdn Hai.
  unfold get_all_data_types, post, mbind, M_bind, bind.
  rewrite check_response_status_200 by done. rewrite Hsplit.
  by rewrite (loop_header _ _ dn ai).
Qed.

Lemma catalog_of_app dn ai m l1 l2 :
  catalog_of dn ai m (l1 ++ l2) = catalog_of dn ai (catalog_of dn ai m l1) l2.
Proof. apply foldl_app. Qed.

Lemma catalog_of_cons dn ai m l ls :
  catalog_of dn ai m (l :: ls) = catalog_of dn ai (add_entry dn ai m l) ls.
Proof. reflexivity. Qed.

Lemma warned_cons dn ai l ls :
  warned dn ai (l :: ls) = option_list (line_warning dn ai l) ++ warned dn ai ls.
Proof. unfold warned. cbn. by destruct (line_warning dn ai l). Qed.

Lemma warned_app dn ai l1 l2 :
  warned dn ai (l1 ++ l2) = warned dn ai l1 ++ warned dn ai l2.
Proof. apply omap_app. Qed.

(** C8.  In a catalogue response with status 200 and a header naming both
    fields, a data line with too few fields to reach the id and the name
    column, or with an id that [int] rejects, leaves the run successful; the
    catalogue returned is the one the same lines give without that line; the
    warnings are those of the other lines, with, for a rejected id only, one
    more warning carrying the fields of the line, at the place of the line. *)
Theorem catalog_skips_bad_lines :
  ∀ server key w hdr pre bad post dn ai,
    let rq := ReqAllDataTypes key in
    let fs := Py.split semicolon bad in
    status_code (server rq) = 200 →
    Py.split newline (text (server rq)) = hdr :: pre ++ bad :: post →
    Py.index "data_name" (Py.split semicolon hdr) = Some dn →
    Py.index "api_id" (Py.split semicolon hdr) = Some ai →
    (length fs ≤ Py.max ai dn)%nat ∨
      ((Py.max ai dn < length fs)%nat ∧ py_int (fs !!! ai) = None) →
    ∃ st w',
      loop loop_init (hdr :: pre ++ post) (posted w rq) = (Ok st, w') ∧
      warnings w' = warnings w ++ warned dn ai pre ++ warned dn ai post ∧
      get_all_data_types server key w
      = (Ok (data_name_by_id st),
         mkWorld (requests w ++ [rq])
           (warnings w ++ warned dn ai pre
              ++ (if decide (length fs ≤ Py.max ai dn)%nat then [] else [fs])
              ++ warned dn ai post)).
Proof.
  intros server key w hdr pre bad post dn ai rq fs H200 Hsplit Hdn Hai Hbad.
  eexists _, _. split_and!.
  - by apply loop_header.
  - cbn. by rewrite warned_app.
  - rewrite (get_all_data_types_200 _ _ _ hdr (pre ++ bad :: post) dn ai) by done.
    rewrite !catalog_of_app, warned_app, catalog_of_cons, warned_cons.
    assert (add_entry dn ai (catalog_of dn ai ∅ pre) bad = catalog_of dn ai ∅ pre
            ∧ option_list (line_warning dn ai bad)
              = (if decide (length fs ≤ Py.max ai dn)%nat then [] else [fs]))
      as [-> ->]; [|done].
    unfold add_entry, entry, line_warning, fields_of. fold fs.
    destruct Hbad as [Hshort|[Hlong Hint]].
    + rewrite (proj2 (Nat.ltb_ge _ _)) by done. by rewrite decide_True.
    + rewrite (proj2 (Nat.ltb_lt _ _)) by done. rewrite Hint. cbn.
      rewrite decide_False by lia. done.
Qed.

Lemma catalog_of_untouched dn ai k lines m :
  (∀ l, l ∈ lines → ∀ n, entry dn ai l ≠ Some (k, n)) →
  catalog_of dn ai m lines !! k = m !! k.
Proof.
  revert m. induction lines as [|l rest IH]; intros m Hno; [done|].
  rewrite catalog_of_cons, IH by (intros; apply Hno; by right).
  unfold add_entry. destruct (entry dn ai l) as [[k' n]|] eqn:He; [|done].
  rewrite lookup_insert_ne; [done|]. intros ->. eapply (Hno l); [by left|done].
Qed.

(** C10.  When a well-formed data line gives the id [k] and no later
    well-formed line gives [k] again, the catalogue maps [k] to the name of
    that line, whatever earlier lines said about [k]; this is the only name
    of [k]. *)
Theorem catalog_last_line_wins :
  ∀ server key w hdr pre ln post dn ai k,
    let rq := ReqAllDataTypes key in
    let fs := Py.split semicolon ln in
    status_code (server rq) = 200 →
    Py.split newline (text (server rq)) = hdr :: pre ++ ln :: post →
    Py.index "data_name" (Py.split semicolon hdr) = Some dn →
    Py.index "api_id" (Py.split semicolon hdr) = Some ai →
    (Py.max ai dn < length fs)%nat →
    py_int (fs !!! ai) = Some k →
    (∀ l, l ∈ post →
          (Py.max ai dn < length (Py.split semicolon l))%nat →
          py_int (Py.split semicolon l !!! ai) ≠ Some k) →
    ∃ cat w',
      get_all_data_types server key w = (Ok cat, w') ∧
      cat !! k = Some (fs !!! dn) ∧
      ∀ name, cat !! k = Some name → name = fs !!! dn.
Proof.
  intros server key w hdr pre ln post dn ai k rq fs H200 Hsplit Hdn Hai Hlen Hint Hpost.
  assert (catalog_of dn ai ∅ (pre ++ ln :: post) !! k = Some (fs !!! dn)) as Hk;
    [|eexists _, _; split_and!;
      [by apply (get_all_data_types_200 _ _ _ hdr (pre ++ ln :: post) dn ai)
      |done|congruence]].
  - rewrite catalog_of_app, catalog_of_cons, catalog_of_untouched.
    + unfold add_entry, entry, fields_of. fold fs.
      rewrite (proj2 (Nat.ltb_lt _ _)) by done. rewrite Hint. cbn.
      apply lookup_insert_eq.
    + intros l Hl n. unfold entry, fields_of.
      destruct (_ <? _)%nat eqn:Hlt; [|done].
      apply Nat.ltb_lt in Hlt. specialize (Hpost l Hl Hlt).
      destruct (py_int (Py.split semicolon l !!! ai)); cbn; [|done].
      intros ?; simplify_eq.
Qed.

(** ** The run: unknown ids *)

Lemma loop_body_requests st line w :
  requests (loop_body st line w).2 = requests w.
Proof.
  unfold loop_body. destruct (header st).
  - destruct (Py.index "data_name" _), (Py.index "api_id" _); done.
  - repeat case_match; done.
Qed.

Lemma loop_requests lines st w : requests (loop st lines w).2 = requests w.
Proof.
  revert st w. induction lines as [|line rest IH]; intros st w; [done|].
  rewrite loop_cons. pose proof (loop_body_requests st line w) as Hb.
  destruct (loop_body st line w) as [[st'|e] w1]; cbn in *.
  - by rewrite IH.
  - done.
Qed.

Lemma get_all_data_types_requests server key w :
  requests (get_all_data_types server key w).2
  = requests w ++ [ReqAllDataTypes key].
Proof.
  unfold get_all_data_types, post, mbind, M_bind, bind.
  unfold check_response_status. case_decide; cbn; [|done].
  match goal with |- context [loop ?st ?ls ?w0] =>
    pose proof (loop_requests ls st w0) as Hl; destruct (loop st ls w0) as [[st'|e] w1]
  end; cbn in *; done.
Qed.

Lemma lookup_names_missing (cat : gmap Z string) ids w :
  (∃ i, i ∈ ids ∧ cat !! i = None) →
  ∃ i, i ∈ ids ∧ cat !! i = None ∧ lookup_names cat ids w = (Raise (KeyError i), w).
Proof.
  induction ids as [|i ids IH]; intros (i0 & Hin & Hnone).
  - by apply elem_of_nil in Hin.
  - cbn. unfold mbind, M_bind, bind.
    destruct (cat !! i) as [name|] eqn:Hi; cbn.
    + destruct IH as (i1 & Hin1 & Hnone1 & Hrun).
      { apply elem_of_cons in Hin as [->|Hin]; [congruence|eauto]. }
      exists i1. rewrite Hrun. split_and!; [by right|done..].
    + exists i. split_and!; [by left|done..].
Qed.

(** C9.  When the catalogue has been fetched and one of the requested ids
    is not among its keys, [main] ends with the [KeyError] of the name
    lookup, in the world the catalogue fetch left: the only request posted
    during the run is the catalogue request, none for the data. *)
Theorem main_unknown_id_aborts_before_get_data :
  ∀ server inflate read_csv args w cat w1,
    get_all_data_types server (api_key args) w = (Ok cat, w1) →
    (∃ i, i ∈ data_id args ∧ cat !! i = None) →
    ∃ i, i ∈ data_id args ∧ cat !! i = None ∧
      main server inflate read_csv args w = (Raise (KeyError i), w1) ∧
      requests w1 = requests w ++ [ReqAllDataTypes (api_key args)].
Proof.
  intros server inflate read_csv args w cat w1 Hcat Hmiss.
  destruct (lookup_names_missing cat (data_id args) w1 Hmiss)
    as (i & Hin & Hnone & Hrun).
  exists i. split_and!; [done..| |].
  - unfold main, mbind, M_bind, bind. rewrite Hcat.
    destruct (data_id args) as [|i0 ids] eqn:Hids.
    + by apply elem_of_nil in Hin.
    + by rewrite Hrun.
  - pose proof (get_all_data_types_requests server (api_key args) w) as Hr.
    by rewrite Hcat in Hr.
Qed.

(** ** Forward fill *)

Lemma at_col_fill_row last r j :
  (j < length (cells r))%nat →
  at_col j (fill_row last r)
  = match at_col j r with Some v => Some v | None => default None (last !! j) end.
Proof.
  intros Hj. unfold at_col, fill_row. cbn [cells]. rewrite list_lookup_imap.
  destruct (cells r !! j) as [c|] eqn:Hc; cbn.
  - by destruct c.
  - apply lookup_ge_None in Hc. lia.
Qed.

Lemma length_cells_fill_row last r :
  length (cells (fill_row last r)) = length (cells r).
Proof. unfold fill_row. cbn. apply length_imap. Qed.

Lemma ffill_rows_stamps last rs : stamp <$> ffill_rows last rs = stamp <$> rs.
Proof.
  revert last. induction rs as [|r rs IH]; intros last; [done|].
  cbn. by rewrite IH.
Qed.

Lemma ffill_rows_widths last rs :
  (length ∘ cells) <$> ffill_rows last rs = (length ∘ cells) <$> rs.
Proof.
  revert last. induction rs as [|r rs IH]; intros last; [done|].
  cbn. by rewrite IH, length_imap.
Qed.

(** Column by column, the rows are filled as [ffill_column] fills a series. *)
Lemma ffill_rows_column j last rs :
  (∀ r, r ∈ rs → (j < length (cells r))%nat) →
  at_col j <$> ffill_rows last rs
  = ffill_column (default None (last !! j)) (at_col j <$> rs).
Proof.
  revert last. induction rs as [|r rs IH]; intros last Hw; [done|].
  cbn [ffill_rows fmap list_fmap ffill_column].
  rewrite at_col_fill_row by (apply Hw; by left).
  f_equal.
  - by destruct (at_col j r).
  - rewrite IH by (intros; apply Hw; by right).
    f_equal. change (default None (cells (fill_row last r) !! j))
      with (at_col j (fill_row last r)).
    rewrite at_col_fill_row by (apply Hw; by left). by destruct (at_col j r).
Qed.

Lemma ffill_column_present s prev i v :
  s !! i = Some (Some v) → ffill_column prev s !! i = Some (Some v).
Proof.
  revert prev i. induction s as [|c s IH]; intros prev [|i] H; try done.
  - by injection H as ->.
  - cbn. by apply IH.
Qed.

Lemma ffill_column_leading s prev i :
  (∀ k, (k ≤ i)%nat → s !! k = Some None) →
  ffill_column prev s !! i = Some prev.
Proof.
  revert prev i. induction s as [|c s IH]; intros prev i H.
  - by specialize (H O (Nat.le_0_l _)).
  - pose proof (H O (Nat.le_0_l _)) as H0. injection H0 as ->.
    destruct i as [|i]; [done|]. cbn. apply IH.
    intros k Hk. apply (H (S k)). lia.
Qed.

Lemma ffill_column_carried s prev k i v :
  (k < i)%nat → s !! k = Some (Some v) →
  (∀ m, (k < m ≤ i)%nat → s !! m = Some None) →
  ffill_column prev s !! i = Some (Some v).
Proof.
  revert prev k i. induction s as [|c s IH]; intros prev k i Hki Hk Hgap; [done|].
  destruct i as [|i]; [lia|]. destruct k as [|k].
  - injection Hk as ->. cbn. apply ffill_column_leading.
    intros m Hm. apply (Hgap (S m)). lia.
  - cbn. apply (IH _ k); [lia|done|].
    intros m Hm. apply (Hgap (S m)). lia.
Qed.

(** C5.  On a table with one cell per column in every row, forward fill
    keeps the columns, the row index (no row is removed or added) and the
    width of every row; in each column a present value stays as it is, a
    missing cell takes the most recent present value above it in the same
    column, and a missing cell with only missing cells above it stays
    missing. *)
Theorem ffill_fills_from_the_past :
  ∀ df, well_formed df →
    columns (ffill df) = columns df ∧
    stamp <$> rows (ffill df) = stamp <$> rows df ∧
    well_formed (ffill df) ∧
    ∀ j, (j < length (columns df))%nat →
      length (column j (ffill df)) = length (column j df) ∧
      ∀ i c, column j df !! i = Some c →
        match c with
        | Some v => column j (ffill df) !! i = Some (Some v)
        | None =>
            (∀ k v, (k < i)%nat → column j df !! k = Some (Some v) →
               (∀ m, (k < m < i)%nat → column j df !! m = Some None) →
               column j (ffill df) !! i = Some (Some v))
            ∧ ((∀ k, (k < i)%nat → column j df !! k = Some None) →
               column j (ffill df) !! i = Some None)
        end.
Proof.
  intros df Hwf.
  assert (∀ j, (j < length (columns df))%nat →
            column j (ffill df) = ffill_column None (column j df)) as Hcol.
  { intros j Hj. unfold column, ffill. cbn. rewrite (ffill_rows_column j []).
    - done.
    - intros r Hr. by rewrite (Hwf r Hr). }
  split_and!; [done|apply ffill_rows_stamps| |].
  - intros r' Hr'. unfold ffill in *. cbn in *.
    apply list_elem_of_lookup in Hr' as [i Hi].
    pose proof (ffill_rows_widths [] (rows df)) as Hws.
    apply (f_equal (λ l, l !! i)) in Hws. rewrite !list_lookup_fmap, Hi in Hws.
    destruct (rows df !! i) as [r|] eqn:Hr; [|done]. cbn in Hws.
    injection Hws as ->. apply Hwf. by eapply list_elem_of_lookup_2.
  - intros j Hj. split.
    { unfold column. rewrite !length_fmap.
      pose proof (f_equal length (ffill_rows_stamps [] (rows df))) as Hl.
      by rewrite !length_fmap in Hl. }
    intros i c Hc. rewrite (Hcol j Hj). destruct c as [v|].
    + by apply ffill_column_present.
    + split.
      * intros k v Hki Hk Hgap. apply (ffill_column_carried _ _ k); [done..|].
        intros m Hm. destruct (decide (m = i)) as [->|]; [done|].
        apply Hgap. lia.
      * intros Hlead. apply ffill_column_leading.
        intros k Hk. destruct (decide (k = i)) as [->|]; [done|].
        apply Hlead. lia.
Qed.

(** ** Resampling *)

Lemma foldr_min_spec t ts :
  foldr Z.min t ts ∈ t :: ts ∧ ∀ x, x ∈ t :: ts → foldr Z.min t ts ≤ x.
Proof.
  induction ts as [|a ts [IHin IHle]]; cbn.
  - split; [by left|]. intros x Hx. apply list_elem_of_singleton in Hx. lia.
  - split.
    + destruct (Z.min_spec a (foldr Z.min t ts)) as [[_ ->]|[_ ->]].
      * right. by left.
      * apply elem_of_cons in IHin as [->|?]; [by left|by do 2 right].
    + intros x Hx. apply elem_of_cons in Hx as [->|[->|Hx]%elem_of_cons].
      * specialize (IHle t ltac:(by left)). lia.
      * lia.
      * specialize (IHle x ltac:(by right)). lia.
Qed.

Lemma foldr_max_spec t ts :
  foldr Z.max t ts ∈ t :: ts ∧ ∀ x, x ∈ t :: ts → x ≤ foldr Z.max t ts.
Proof.
  induction ts as [|a ts [IHin IHle]]; cbn.
  - split; [by left|]. intros x Hx. apply list_elem_of_singleton in Hx. lia.
  - split.
    + destruct (Z.max_spec a (foldr Z.max t ts)) as [[_ ->]|[_ ->]].
      * apply elem_of_cons in IHin as [->|?]; [by left|by do 2 right].
      * right. by left.
    + intros x Hx. apply elem_of_cons in Hx as [->|[->|Hx]%elem_of_cons].
      * specialize (IHle t ltac:(by left)). lia.
      * lia.
      * specialize (IHle x ltac:(by right)). lia.
Qed.

Lemma range_edges_eq freq first last :
  0 < freq →
  range_edges freq first last
  = (first - (first - normalize first) `mod` freq,
     last - (last - normalize first) `mod` freq + freq).
Proof.
  intros Hf. unfold range_edges.
  pose proof (Z.mod_pos_bound (first - normalize first) freq Hf).
  pose proof (Z.mod_pos_bound (last - normalize first) freq Hf).
  repeat case_match; f_equal; lia.
Qed.

(** The number of bins between the outer edges. *)
Lemma bin_count freq origin first last :
  0 < freq → first ≤ last →
  let fresult := first - (first - origin) `mod` freq in
  let lresult := last - (last - origin) `mod` freq + freq in
  (lresult - fresult) `div` freq
  = (last - origin) `div` freq - (first - origin) `div` freq + 1
  ∧ 0 < (lresult - fresult) `div` freq
  ∧ fresult + (lresult - fresult) `div` freq * freq = lresult.
Proof.
  intros Hf Hle fresult lresult.
  pose proof (Z.div_mod (first - origin) freq ltac:(lia)) as Hdf.
  pose proof (Z.div_mod (last - origin) freq ltac:(lia)) as Hdl.
  pose proof (Z.div_le_mono (first - origin) (last - origin) freq Hf ltac:(lia)).
  set (qf := (first - origin) `div` freq) in *.
  set (ql := (last - origin) `div` freq) in *.
  assert (lresult - fresult = (ql - qf + 1) * freq) as -> by (subst fresult lresult; lia).
  rewrite Z.div_mul by lia. split_and!; [done|lia|subst fresult lresult; lia].
Qed.

Lemma resample_stamps freq df t ts :
  stamp <$> rows df = t :: ts →
  stamp <$> rows (resample freq df)
  = let '(fresult, lresult) :=
      range_edges freq (foldr Z.min t ts) (foldr Z.max t ts) in
    bin_labels freq fresult lresult.
Proof.
  intros Hs. unfold resample. cbn [rows]. rewrite Hs.
  destruct (range_edges _ _ _) as [fr lr].
  rewrite <-list_fmap_compose. by rewrite list_fmap_id.
Qed.

Lemma in_bin_spec freq lo r :
  in_bin freq lo r = true ↔ lo ≤ stamp r < lo + freq.
Proof. unfold in_bin. rewrite andb_true_iff, Z.leb_le, Z.ltb_lt. tauto. Qed.

Lemma resample_row freq df r' :
  r' ∈ rows (resample freq df) →
  r' = mkRow (stamp r')
         (bin_mean (length (columns df))
            (filter (λ r, in_bin freq (stamp r') r = true) (rows df))).
Proof.
  unfold resample. cbn [rows]. destruct (stamp <$> rows df); [by intros ?%elem_of_nil|].
  destruct (range_edges _ _ _) as [fr lr].
  intros (lo & -> & _)%list_elem_of_fmap. done.
Qed.

Lemma bin_mean_lookup n rs j :
  (j < n)%nat → bin_mean n rs !! j = Some (mean (at_col j <$> rs)).
Proof.
  intros Hj. unfold bin_mean. rewrite list_lookup_fmap, lookup_seq_lt by done.
  done.
Qed.

Lemma filter_none {A} (P : A → Prop) `{∀ x, Decision (P x)} (l : list A) :
  (∀ x, x ∈ l → ¬ P x) → filter P l = [].
Proof.
  induction l as [|a l IH]; intros Hn; [done|].
  rewrite filter_cons_False by (apply Hn; by left).
  apply IH. intros x Hx. apply Hn. by right.
Qed.

(** Every source row lies in the bucket of some output row. *)
Lemma resample_covers freq df r :
  0 < freq → r ∈ rows df →
  ∃ r', r' ∈ rows (resample freq df) ∧ in_bin freq (stamp r') r = true.
Proof.
  intros Hf Hr.
  destruct (stamp <$> rows df) as [|t ts] eqn:Hs.
  { destruct (rows df); [by apply elem_of_nil in Hr|discriminate]. }
  destruct (foldr_min_spec t ts) as [_ Hmin].
  destruct (foldr_max_spec t ts) as [Hmax_in Hmax].
  set (first := foldr Z.min t ts) in *. set (last := foldr Z.max t ts) in *.
  assert (stamp r ∈ t :: ts) as Hin.
  { rewrite <-Hs. apply list_elem_of_fmap. eauto. }
  pose proof (Hmin _ Hin) as Hlo. pose proof (Hmax _ Hin) as Hhi.
  pose proof (resample_stamps freq df t ts Hs) as Hst.
  fold first last in Hst. rewrite range_edges_eq in Hst by done.
  destruct (bin_count freq (normalize first) first last Hf ltac:(lia))
    as (_ & Hpos & Hend).
  set (lo := first - (first - normalize first) `mod` freq) in *.
  set (hi := last - (last - normalize first) `mod` freq + freq) in *.
  pose proof (Z.mod_pos_bound (first - normalize first) freq Hf) as Hfm.
  pose proof (Z.mod_pos_bound (last - normalize first) freq Hf) as Hlm.
  pose proof (Z.div_mod (stamp r - lo) freq ltac:(lia)) as Hd.
  pose proof (Z.mod_pos_bound (stamp r - lo) freq Hf) as Hm.
  assert (0 ≤ (stamp r - lo) `div` freq) as Hk0
    by (apply Z.div_pos; subst lo; lia).
  assert ((stamp r - lo) `div` freq < (hi - lo) `div` freq) as Hk1.
  { apply Z.div_lt_upper_bound; [done|]. subst hi. rewrite Z.mul_comm. nia. }
  assert (lo + (stamp r - lo) `div` freq * freq
          ∈ stamp <$> rows (resample freq df)) as Hlabel.
  { rewrite Hst. unfold bin_labels. apply list_elem_of_fmap.
    exists (Z.to_nat ((stamp r - lo) `div` freq)). split.
    - by rewrite Z2Nat.id.
    - apply elem_of_seq. lia. }
  apply list_elem_of_fmap in Hlabel as (r' & Hstamp & Hr').
  exists r'. split; [done|]. apply in_bin_spec. rewrite <-Hstamp. nia.
Qed.

(** C4.  For a positive step, every source row lies in the bucket of some
    row of the resampled table.  In the resampled table, the cell of an
    output row in column [j] is the arithmetic mean (sum divided by count)
    of the present values of column [j] among the source rows of that row's
    bucket, and it is missing, not zero, when the bucket has no present
    value in that column. *)
Theorem resample_cell_is_bucket_mean :
  ∀ freq df,
    (0 < freq →
     ∀ r, r ∈ rows df →
          ∃ r', r' ∈ rows (resample freq df)
                ∧ in_bin freq (stamp r') r = true)
    ∧ ∀ r' j,
        r' ∈ rows (resample freq df) → (j < length (columns df))%nat →
        let bucket := filter (λ r, in_bin freq (stamp r') r = true) (rows df) in
        let vs := present (at_col j <$> bucket) in
        ∃ c, cells r' !! j = Some c ∧
             (vs = [] → c = None) ∧
             (vs ≠ [] → c = Some (Qsum vs / Qlen vs)%Q).
Proof.
  intros freq df. split.
  - intros Hf r Hr. by apply resample_covers.
  - intros r' j Hr' Hj bucket vs.
    rewrite (resample_row _ _ _ Hr'). cbn [cells].
    rewrite bin_mean_lookup by done. eexists; split; [done|].
    unfold mean. fold bucket. fold vs. destruct vs; split; congruence.
Qed.

Lemma quarter_hours_bounds d0 x :
  x ∈ quarter_hours d0 → d0 ≤ x ≤ d0 + 95 * timedelta_minutes 15.
Proof.
  unfold quarter_hours. intros (k & -> & Hk)%list_elem_of_fmap.
  apply elem_of_seq in Hk. unfold timedelta_minutes, nanos_per_second. lia.
Qed.

Lemma quarter_hours_ends d0 :
  d0 ∈ quarter_hours d0 ∧ d0 + 95 * timedelta_minutes 15 ∈ quarter_hours d0.
Proof.
  unfold quarter_hours. split.
  - apply list_elem_of_fmap. exists 0%nat. split; [lia|]. apply elem_of_seq. lia.
  - apply list_elem_of_fmap. exists 95%nat. split; [lia|]. apply elem_of_seq. lia.
Qed.

(** C3 (amended).  For a positive step and a non-empty table, the resampled
    table has exactly one row for every bucket from the bucket of the
    earliest source row to the bucket of the latest one, in increasing order
    of bucket start: the first and the last of these buckets hold a source
    row, every source row lies in one of them, and a bucket in between that
    holds no source row still has its row, with every cell missing.  For a
    4-hour step and rows every 15 minutes over one day the table has 6
    rows. *)
Theorem resample_one_row_per_bucket_in_range :
  ∀ freq df,
    0 < freq → rows df ≠ [] →
    ∃ lo n,
      stamp <$> rows (resample freq df)
        = (λ k, lo + Z.of_nat k * freq) <$> seq 0 n
      ∧ (∃ r, r ∈ rows df ∧ in_bin freq lo r = true)
      ∧ (∃ r, r ∈ rows df ∧ in_bin freq (lo + (Z.of_nat n - 1) * freq) r = true)
      ∧ (∀ r, r ∈ rows df →
              ∃ k, (k < n)%nat ∧ in_bin freq (lo + Z.of_nat k * freq) r = true)
      ∧ (∀ r', r' ∈ rows (resample freq df) →
               (∀ r, r ∈ rows df → in_bin freq (stamp r') r = false) →
               ∀ c, c ∈ cells r' → c = None)
      ∧ (∀ d0, freq = timedelta_hours 4 → d0 `mod` day = 0 →
               stamp <$> rows df = quarter_hours d0 →
               length (rows (resample freq df)) = 6%nat).
Proof.
  intros freq df Hf Hne.
  destruct (stamp <$> rows df) as [|t ts] eqn:Hs.
  { destruct (rows df); [done|discriminate]. }
  destruct (foldr_min_spec t ts) as [Hmin_in Hmin].
  destruct (foldr_max_spec t ts) as [Hmax_in Hmax].
  set (first := foldr Z.min t ts) in *. set (last := foldr Z.max t ts) in *.
  assert (first ≤ last) as Hfl by (by apply Hmin).
  pose proof (resample_stamps freq df t ts Hs) as Hst.
  fold first last in Hst. rewrite range_edges_eq in Hst by done.
  destruct (bin_count freq (normalize first) first last Hf Hfl)
    as (Hcount & Hpos & Hend).
  set (lo := first - (first - normalize first) `mod` freq) in *.
  set (hi := last - (last - normalize first) `mod` freq + freq) in *.
  set (n := Z.to_nat ((hi - lo) `div` freq)) in *.
  assert (Z.of_nat n = (hi - lo) `div` freq) as Hn by (subst n; lia).
  pose proof (Z.mod_pos_bound (first - normalize first) freq Hf) as Hfm.
  pose proof (Z.mod_pos_bound (last - normalize first) freq Hf) as Hlm.
  assert (∀ s, s ∈ t :: ts → ∃ r, r ∈ rows df ∧ stamp r = s) as Hrow.
  { intros s Hin. rewrite <-Hs in Hin.
    apply list_elem_of_fmap in Hin as (r & -> & Hr). eauto. }
  exists lo, n. split_and!.
  - exact Hst.
  - destruct (Hrow first Hmin_in) as (r & Hr & Hsr). exists r. split; [done|].
    apply in_bin_spec. rewrite Hsr. subst lo. lia.
  - destruct (Hrow last Hmax_in) as (r & Hr & Hsr). exists r. split; [done|].
    apply in_bin_spec. rewrite Hsr, Hn. subst hi. nia.
  - intros r Hr.
    assert (stamp r ∈ t :: ts) as Hin.
    { rewrite <-Hs. apply list_elem_of_fmap. eauto. }
    pose proof (Hmin _ Hin). pose proof (Hmax _ Hin).
    pose proof (Z.div_mod (stamp r - lo) freq ltac:(lia)) as Hd.
    pose proof (Z.mod_pos_bound (stamp r - lo) freq Hf) as Hm.
    assert (0 ≤ (stamp r - lo) `div` freq) by (apply Z.div_pos; subst lo; lia).
    assert ((stamp r - lo) `div` freq < Z.of_nat n).
    { rewrite Hn. apply Z.div_lt_upper_bound; [done|]. subst hi. 
      rewrite Z.mul_comm. nia. }
    exists (Z.to_nat ((stamp r - lo) `div` freq)). split; [lia|].
    apply in_bin_spec. rewrite Z2Nat.id by done. nia.
  - intros r' Hr' Hempty c Hc. rewrite (resample_row _ _ _ Hr') in Hc.
    cbn [cells] in Hc. rewrite filter_none in Hc.
    + unfold bin_mean in Hc. apply list_elem_of_fmap in Hc as (j & -> & _). done.
    + intros r Hr. rewrite (Hempty r Hr). done.
  - intros d0 -> Hd0 Hgrid.
    apply (f_equal length) in Hst. unfold bin_labels in Hst.
    rewrite !length_fmap, length_seq in Hst.
    rewrite Hst.
    assert (first = d0 ∧ last = d0 + 95 * timedelta_minutes 15) as [Hfirst Hlast].
    { rewrite Hgrid in Hmin_in, Hmax_in, Hmin, Hmax.
      destruct (quarter_hours_ends d0) as [He1 He2].
      pose proof (quarter_hours_bounds _ _ Hmin_in).
      pose proof (quarter_hours_bounds _ _ Hmax_in).
      pose proof (Hmin _ He1). pose proof (Hmax _ He2). lia. }
    assert (normalize first = d0) as Hnorm.
    { unfold normalize. rewrite Hfirst, Hd0. lia. }
    subst n. rewrite Hcount, Hnorm, Hfirst, Hlast.
    replace (d0 - d0) with 0 by lia.
    replace (d0 + 95 * timedelta_minutes 15 - d0) with (95 * timedelta_minutes 15) by lia.
    reflexivity.
Qed.

(** ** Removing anomalies *)

Lemma Qltb_lt x y : Qltb x y = true ↔ (x < y)%Q.
Proof.
  unfold Qltb. rewrite negb_true_iff. split.
  - intros H. apply Qnot_le_lt. intros Hle%Qle_bool_iff. congruence.
  - intros H. destruct (Qle_bool y x) eqn:E; [|done].
    apply Qle_bool_iff in E. by apply Qlt_not_le in H.
Qed.

Lemma Qabs_square d : (Qabs d * Qabs d == d * d)%Q.
Proof.
  rewrite <-Qabs_Qmult. apply Qabs_pos.
  destruct (Qlt_le_dec d 0); nra.
Qed.

(** [|d| < 10 * √s2] is decided as [d² < 100 * s2]. *)
Lemma Qlt_surd_abs d s2 :
  Qlt_surd (Qabs d) (surd_mul (Sqrt s2) 10) = true ↔ (d * d < 100 * s2)%Q.
Proof.
  unfold Qlt_surd, surd_mul. cbn [radicand].
  rewrite orb_true_iff, !Qltb_lt, Qabs_square.
  pose proof (Qabs_nonneg d). split.
  - intros [H1|H1]; lra.
  - intros H1. right. lra.
Qed.

Lemma mask_true (c m s : cell) :
  cell_lt (cell_abs (cell_sub c m)) ((λ s, surd_mul s 10) <$> (Sqrt <$> s)) = true
  ↔ ∃ v mu s2, c = Some v ∧ m = Some mu ∧ s = Some s2 ∧
               ((v - mu) * (v - mu) < 100 * s2)%Q.
Proof.
  destruct c as [v|], m as [mu|], s as [s2|];
    try (split; [discriminate | by intros (? & ? & ? & ? & ? & ? & ?)]).
  change (Qlt_surd (Qabs (v - mu)) (surd_mul (Sqrt s2) 10) = true ↔
          ∃ v0 mu0 s0, Some v = Some v0 ∧ Some mu = Some mu0 ∧ Some s2 = Some s0
                       ∧ ((v0 - mu0) * (v0 - mu0) < 100 * s0)%Q).
  rewrite Qlt_surd_abs. split.
  - eauto 10.
  - by intros (? & ? & ? & [= <-] & [= <-] & [= <-] & ?).
Qed.

Lemma elem_of_keep j df r :
  r ∈ rows (keep j df) ↔
  r ∈ rows df ∧
  ∃ v mu s2, at_col j r = Some v ∧ mean (column j df) = Some mu ∧
             var (column j df) = Some s2 ∧
             ((v - mu) * (v - mu) < 100 * s2)%Q.
Proof.
  unfold keep, loc, describe. cbn [rows d_mean d_std].
  rewrite list_elem_of_filter, mask_true. tauto.
Qed.

(** A row with a missing value in the column is not kept. *)
Lemma keep_drops_missing j df r :
  at_col j r = None → r ∉ rows (keep j df).
Proof. intros Hm (_ & v & ? & ? & Hv & _)%elem_of_keep. congruence. Qed.

(** With a zero standard deviation no row is kept. *)
Lemma keep_zero_variance j df s2 :
  var (column j df) = Some s2 → (s2 == 0)%Q → rows (keep j df) = [].
Proof.
  intros Hvar Hz. apply elem_of_nil_inv.
  intros r (_ & v & mu & s & _ & _ & Hs & Hlt)%elem_of_keep.
  rewrite Hvar in Hs. injection Hs as <-. rewrite Hz in Hlt.
  destruct (Qlt_le_dec (v - mu) 0); nra.
Qed.

(** With fewer than two present values no row is kept either. *)
Lemma keep_undefined_deviation j df :
  (length (present (column j df)) ≤ 1)%nat → rows (keep j df) = [].
Proof.
  intros Hn. apply elem_of_nil_inv.
  intros r (_ & v & mu & s & _ & _ & Hs & _)%elem_of_keep.
  unfold var in Hs. destruct (mean _); [|done].
  by rewrite (proj2 (Nat.leb_le _ _)) in Hs.
Qed.

Lemma keep_subset j df r : r ∈ rows (keep j df) → r ∈ rows df.
Proof. by intros [? _]%elem_of_keep. Qed.

Lemma remove_anomalies_over_snoc cols j df :
  remove_anomalies_over (cols ++ [j]) df
  = anomaly_pass (remove_anomalies_over cols df) j.
Proof. unfold remove_anomalies_over. by rewrite foldl_app. Qed.





(** ** The stages on sample inputs *)

Lemma well_formed_Forall df :
  Forall (λ r, length (cells r) = length (columns df)) (rows df) →
  well_formed df.
Proof. intros H r Hr. by eapply Forall_forall in H. Qed.

(** C1 (the code at the failing input).  The column of [constant_column]
    has mean 5 and standard deviation 0; the filter of that column keeps no
    row, and the loop reports 3 anomalies removed and returns an empty
    table. *)
Theorem constant_column_loses_every_row :
  (∃ mu s2, mean (column 0 constant_column) = Some mu ∧ (mu == 5)%Q ∧
            var (column 0 constant_column) = Some s2 ∧ (s2 == 0)%Q)
  ∧ rows (keep 0 constant_column) = []
  ∧ remove_anomalies constant_column = (mkFrame ["A"] [], [Removed 3 "A"]).
Proof.
  split_and!.
  - eexists _, _; split_and!; [reflexivity|reflexivity|reflexivity|reflexivity].
  - vm_compute; reflexivity.
  - vm_compute; reflexivity.
Qed.

(** C2 (the code at the failing input).  The column of [column_with_gap] has
    mean 2 and standard deviation 1; the row of 04:00, whose value is
    missing, is not kept by the filter of that column, and the loop reports
    one anomaly removed although every present value is within 10 standard
    deviations of the mean. *)
Theorem missing_value_row_is_removed :
  (∃ mu s2, mean (column 0 column_with_gap) = Some mu ∧ (mu == 2)%Q ∧
            var (column 0 column_with_gap) = Some s2 ∧ (s2 == 1)%Q)
  ∧ (at_hour 4 [None] ∈ rows column_with_gap)
  ∧ at_col 0 (at_hour 4 [None]) = None
  ∧ (at_hour 4 [None] ∉ rows (keep 0 column_with_gap))
  ∧ remove_anomalies column_with_gap
    = (mkFrame ["A"] [at_hour 0 [num 1]; at_hour 8 [num 2]; at_hour 12 [num 3]],
       [Removed 1 "A"]).
Proof.
  split_and!.
  - eexists _, _; split_and!; reflexivity.
  - right. left.
  - reflexivity.
  - by apply keep_drops_missing.
  - vm_compute; reflexivity.
Qed.

(** C3 as stated fails: resampling [sparse_day] with a 4-hour step gives a
    row for the bucket of 04:00, which holds no source row. *)
Lemma sparse_day_has_rows_of_empty_buckets :
  ¬ only_nonempty_buckets (timedelta_hours 4) sparse_day.
Proof.
  intros H. destruct (H (timedelta_hours 4)) as (r & Hr & Hin).
  - apply (bool_decide_unpack _). vm_compute. exact I.
  - unfold sparse_day in Hr. cbn [rows] in Hr.
    apply elem_of_cons in Hr as [->|Hr]; [vm_compute in Hin; discriminate|].
    apply list_elem_of_singleton in Hr as ->. vm_compute in Hin. discriminate.
Qed.

(** C6.  There is a well-formed table with columns A and B, whose filters
    on the whole table remove one row each, at different index entries
    [ta] and [tb], and for which the loop over A then B removes the row of
    [ta] only while the loop over B then A removes the row of [tb] only: the
    row of [tb] is in the first result and not in the second.  The same
    holds for the loop in the table's own column order, run on the table and
    on the table with its columns swapped. *)
Theorem anomaly_removal_depends_on_column_order :
  ∃ df ta tb,
    well_formed df ∧ columns df = ["A"; "B"] ∧ ta ≠ tb
    ∧ removed_stamps df (keep 0 df) = [ta]
    ∧ removed_stamps df (keep 1 df) = [tb]
    ∧ removed_stamps df (remove_anomalies_over [0; 1]%nat df).1 = [ta]
    ∧ removed_stamps df (remove_anomalies_over [1; 0]%nat df).1 = [tb]
    ∧ (tb ∈ stamp <$> rows (remove_anomalies_over [0; 1]%nat df).1)
    ∧ (tb ∉ stamp <$> rows (remove_anomalies_over [1; 0]%nat df).1)
    ∧ removed_stamps df (remove_anomalies df).1 = [ta]
    ∧ removed_stamps df (remove_anomalies (swap_columns df)).1 = [tb].
Proof.
  exists spike_frame, 0, (timedelta_hours 4). split_and!.
  - apply well_formed_Forall. unfold spike_frame. cbn [rows columns].
    apply Forall_fmap, Forall_forall. intros k _. reflexivity.
  - reflexivity.
  - discriminate.
  - vm_compute; reflexivity.
  - vm_compute; reflexivity.
  - vm_compute; reflexivity.
  - vm_compute; reflexivity.
  - apply (bool_decide_unpack _); vm_compute; exact I.
  - apply (bool_decide_unpack _); vm_compute; exact I.
  - vm_compute; reflexivity.
  - vm_compute; reflexivity.
Qed.

End Properties.

(** ** The general statements at sample inputs *)

Lemma catalog_skips_bad_lines_witness :
  status_code (sample_server (ReqAllDataTypes "secret")) = 200
  ∧ Py.ascii_decimal "x" = None
  ∧ ∃ cat,
      get_all_data_types (R := sample_runtime) sample_server "secret" fresh_world
      = (Ok cat, mkWorld [ReqAllDataTypes "secret"] [["x"; "Bad"; "MW"]]).
Proof.
  split; [reflexivity|]. split; [reflexivity|].
  destruct (catalog_skips_bad_lines (R := sample_runtime) sample_server "secret" fresh_world
              "api_id;data_name;unit" ["1;Load;MW"] "x;Bad;MW"
              ["2"; "1;Load forecast;MW"] 1%nat 0%nat)
    as (st & w' & _ & _ & Hrun).
  - reflexivity.
  - reflexivity.
  - reflexivity.
  - reflexivity.
  - right. split; [vm_compute; lia | reflexivity].
  - exists (data_name_by_id st). exact Hrun.
Defined.

Lemma catalog_last_line_wins_witness :
  Py.ascii_decimal "1" = Some 1
  ∧ ∃ cat w',
      get_all_data_types (R := sample_runtime) sample_server "secret" fresh_world = (Ok cat, w')
      ∧ cat !! 1 = Some "Load forecast".
Proof.
  split; [reflexivity|].
  destruct (catalog_last_line_wins (R := sample_runtime) sample_server "secret" fresh_world
              "api_id;data_name;unit" ["1;Load;MW"; "x;Bad;MW"; "2"]
              "1;Load forecast;MW" [] 1%nat 0%nat 1)
    as (cat & w' & Hrun & Hk & _).
  - reflexivity.
  - reflexivity.
  - reflexivity.
  - reflexivity.
  - vm_compute. lia.
  - reflexivity.
  - intros l Hl. by apply elem_of_nil in Hl.
  - exists cat, w'. split; [exact Hrun | exact Hk].
Defined.

Lemma main_unknown_id_aborts_before_get_data_witness :
  (∃ i, i ∈ data_id sample_arguments
        ∧ catalog_of (R := sample_runtime) 1 0 ∅ ["1;Load;MW"; "x;Bad;MW"; "2"; "1;Load forecast;MW"] !! i
          = None)
  ∧ ∃ i w1,
      main (R := sample_runtime) sample_server no_inflate no_read_csv sample_arguments fresh_world
      = (Raise (KeyError i), w1)
      ∧ requests w1 = [ReqAllDataTypes "secret"].
Proof.
  assert (∃ i, i ∈ data_id sample_arguments
        ∧ catalog_of (R := sample_runtime) 1 0 ∅ ["1;Load;MW"; "x;Bad;MW"; "2"; "1;Load forecast;MW"] !! i
          = None) as Hmiss.
  { exists 7. split; [right; left | vm_compute; reflexivity]. }
  split; [exact Hmiss|].
  destruct (main_unknown_id_aborts_before_get_data (R := sample_runtime) sample_server no_inflate
              no_read_csv sample_arguments fresh_world
              (catalog_of (R := sample_runtime) 1 0 ∅
                 ["1;Load;MW"; "x;Bad;MW"; "2"; "1;Load forecast;MW"])
              (mkWorld [ReqAllDataTypes "secret"] [["x"; "Bad"; "MW"]]))
    as (i & _ & _ & Hrun & Hreq).
  - vm_compute. reflexivity.
  - exact Hmiss.
  - eexists i, _. split; [exact Hrun | exact Hreq].
Defined.

Lemma ffill_fills_from_the_past_witness :
  well_formed column_to_fill
  ∧ stamp <$> rows (ffill column_to_fill) = stamp <$> rows column_to_fill
  ∧ column 0 (ffill column_to_fill) !! 2%nat = Some (num 1)
  ∧ column 0 (ffill column_to_fill) !! 4%nat = Some (num 2).
Proof.
  assert (well_formed column_to_fill) as Hwf.
  { apply well_formed_Forall. repeat constructor. }
  split; [exact Hwf|].
  destruct (ffill_fills_from_the_past column_to_fill Hwf) as (_ & Hst & _ & Hcol).
  split; [exact Hst|].
  destruct (Hcol 0%nat ltac:(vm_compute; lia)) as [_ Hcells].
  split.
  - destruct (Hcells 2%nat None eq_refl) as [Hfill _].
    apply (Hfill 0%nat (inject_Z 1)); [lia|reflexivity|].
    intros m Hm. assert (m = 1%nat) as -> by lia. reflexivity.
  - destruct (Hcells 4%nat None eq_refl) as [Hfill _].
    apply (Hfill 3%nat (inject_Z 2)); [lia|reflexivity|].
    intros m Hm. lia.
Defined.

Lemma resample_cell_is_bucket_mean_witness :
  0 < timedelta_hours 4
  ∧ (at_hour 5 [None] ∈ rows mixed_day)
  ∧ (∃ r', r' ∈ rows (resample (timedelta_hours 4) mixed_day)
           ∧ in_bin (timedelta_hours 4) (stamp r') (at_hour 5 [None]) = true)
  ∧ (at_hour 0 [Some (5 # 2)] ∈ rows (resample (timedelta_hours 4) mixed_day))
  ∧ (∃ c, cells (at_hour 0 [Some (5 # 2)]) !! 0%nat = Some c
          ∧ c = Some (Qsum [inject_Z 1; inject_Z 4]
                      / Qlen [inject_Z 1; inject_Z 4])%Q)
  ∧ (at_hour 4 [None] ∈ rows (resample (timedelta_hours 4) mixed_day))
  ∧ (∃ c, cells (at_hour 4 [None]) !! 0%nat = Some c ∧ c = None).
Proof.
  assert (0 < timedelta_hours 4) as Hf by reflexivity.
  assert (at_hour 5 [None] ∈ rows mixed_day) as Hsrc by (vm_compute; do 4 right; left).
  assert (at_hour 0 [Some (5 # 2)]
          ∈ rows (resample (timedelta_hours 4) mixed_day)) as Hin0
    by (vm_compute; left).
  assert (at_hour 4 [None] ∈ rows (resample (timedelta_hours 4) mixed_day))
    as Hin4 by (vm_compute; right; left).
  assert (0 < length (columns mixed_day))%nat as Hj by (vm_compute; lia).
  destruct (resample_cell_is_bucket_mean (timedelta_hours 4) mixed_day)
    as [Hcover Hcell].
  split; [exact Hf|]. split; [exact Hsrc|].
  split; [exact (Hcover Hf _ Hsrc)|]. split; [exact Hin0|]. split.
  - destruct (Hcell _ 0%nat Hin0 Hj) as (c & Hc & _ & Hmean).
    exists c. split; [exact Hc|]. apply Hmean. discriminate.
  - split; [exact Hin4|].
    destruct (Hcell _ 0%nat Hin4 Hj) as (c & Hc & Hnone & _).
    exists c. split; [exact Hc|]. apply Hnone. reflexivity.
Defined.

Lemma resample_one_row_per_bucket_in_range_witness :
  0 < timedelta_hours 4 ∧ rows quarter_hour_day ≠ []
  ∧ length (rows (resample (timedelta_hours 4) quarter_hour_day)) = 6%nat.
Proof.
  assert (0 < timedelta_hours 4) as Hf by reflexivity.
  assert (rows quarter_hour_day ≠ []) as Hne by discriminate.
  split; [exact Hf|]. split; [exact Hne|].
  destruct (resample_one_row_per_bucket_in_range (timedelta_hours 4)
              quarter_hour_day Hf Hne) as (lo & n & _ & _ & _ & _ & _ & Hday).
  apply (Hday 0); [reflexivity|reflexivity|].
  unfold quarter_hour_day, quarter_hours. cbn [rows].
  rewrite <-list_fmap_compose. apply list_fmap_ext. intros i k _. reflexivity.
Defined.

(** * Further properties of the code *)

Section FurtherProperties.
Context {R : Runtime}.

(** *** [split] and [join] *)

Lemma split_not_nil sep s : Py.split sep s ≠ [].
Proof. destruct s as [|c s]; cbn; [done|]. destruct (Ascii.eqb c sep); [done|]. by destruct (Py.split sep s). Qed.

Lemma split_cons_sep sep s :
  Py.split sep (String sep s) = EmptyString :: Py.split sep s.
Proof. cbn. by rewrite Ascii.eqb_refl. Qed.

Lemma split_cons_other sep c s :
  c ≠ sep →
  ∃ f fs, Py.split sep s = f :: fs ∧ Py.split sep (String c s) = String c f :: fs.
Proof.
  intros Hc. cbn. rewrite (proj2 (Ascii.eqb_neq _ _) Hc).
  destruct (Py.split sep s) as [|f fs] eqn:Hs; [by apply split_not_nil in Hs|].
  eauto.
Qed.

Lemma split_free sep s : ¬ Py.occurs sep s → Py.split sep s = [s].
Proof.
  induction s as [|c s IH]; [done|]. cbn. intros Hfree.
  destruct (Ascii.eqb_spec c sep) as [->|Hc]; [tauto|].
  rewrite IH by tauto. done.
Qed.

Lemma split_app_sep sep a b :
  ¬ Py.occurs sep a →
  Py.split sep (a +:+ String sep b) = a :: Py.split sep b.
Proof.
  induction a as [|c a IH]; intros Hfree.
  - apply split_cons_sep.
  - cbn in Hfree.
    change (String c a +:+ String sep b) with (String c (a +:+ String sep b)).
    destruct (Ascii.eqb_spec c sep) as [->|Hc]; [tauto|].
    destruct (split_cons_other sep c (a +:+ String sep b) Hc)
      as (f & fs & Hs & ->).
    rewrite IH in Hs by tauto. by injection Hs as <- <-.
Qed.

Lemma join_split sep s : join sep (Py.split sep s) = s.
Proof.
  induction s as [|c s IH]; [done|].
  destruct (Ascii.eqb_spec c sep) as [->|Hc].
  - rewrite split_cons_sep. cbn [join].
    destruct (Py.split sep s) as [|f fs] eqn:Hs; [by apply split_not_nil in Hs|].
    cbn [String.app]. by rewrite IH.
  - destruct (split_cons_other sep c s Hc) as (f & fs & Hs & ->).
    rewrite Hs in IH. destruct fs; cbn [join] in *; by rewrite <-IH.
Qed.

Lemma split_fields_free sep s : Forall (λ f, ¬ Py.occurs sep f) (Py.split sep s).
Proof.
  induction s as [|c s IH]; [repeat constructor; tauto|].
  destruct (Ascii.eqb_spec c sep) as [->|Hc].
  - rewrite split_cons_sep. constructor; [cbn; tauto|done].
  - destruct (split_cons_other sep c s Hc) as (f & fs & Hs & ->).
    rewrite Hs in IH. apply Forall_cons in IH as [Hf Hfs].
    constructor; [|done]. cbn. intros [?|?]; [done|tauto].
Qed.

Lemma split_join sep l :
  l ≠ [] → Forall (λ f, ¬ Py.occurs sep f) l → Py.split sep (join sep l) = l.
Proof.
  intros Hne Hfree. induction l as [|f l IH]; [done|].
  apply Forall_cons in Hfree as [Hf Hl].
  destruct l as [|g l]; [by apply split_free|].
  cbn [join]. rewrite split_app_sep by done. f_equal. by apply IH.
Qed.

(** X1.  Splitting a string at a separator and joining the fields with the
    separator gives the string back; the fields do not hold the separator;
    and a non-empty list of separator-free fields, joined and split again,
    comes back unchanged. *)
Theorem split_join_round_trip :
  ∀ sep s,
    join sep (Py.split sep s) = s
    ∧ Forall (λ f, ¬ Py.occurs sep f) (Py.split sep s)
    ∧ ∀ l, l ≠ [] → Forall (λ f, ¬ Py.occurs sep f) l →
           Py.split sep (join sep l) = l.
Proof.
  intros sep s. split_and!;
    [apply join_split | apply split_fields_free | apply split_join].
Qed.

(** *** [csv_data.replace(";\n", "\n")] *)

Lemma semicolon_not_newline : semicolon ≠ newline.
Proof. discriminate. Qed.

Lemma chop_cons c f : f ≠ EmptyString → chop (String c f) = String c (chop f).
Proof. by destruct f. Qed.

Lemma chop_all_but_last_cons l ls :
  ls ≠ [] → chop_all_but_last (l :: ls) = chop l :: chop_all_but_last ls.
Proof. by destruct ls. Qed.

Lemma drop_trailing_separators_cons c c' t' :
  drop_trailing_separators (String c (String c' t'))
  = if Ascii.eqb c semicolon && Ascii.eqb c' newline
    then String newline (drop_trailing_separators t')
    else String c (drop_trailing_separators (String c' t')).
Proof. reflexivity. Qed.

Lemma drop_trailing_separators_lines_aux s :
  Py.split newline (drop_trailing_separators s)
    = chop_all_but_last (Py.split newline s)
  ∧ ∀ c, Py.split newline (drop_trailing_separators (String c s))
         = chop_all_but_last (Py.split newline (String c s)).
Proof.
  induction s as [|c' t' [IHt' IHc']].
  - split; [done|]. intros c. cbn. by destruct (Ascii.eqb c newline).
  - split; [apply IHc'|]. intros c.
    rewrite drop_trailing_separators_cons.
    destruct (Ascii.eqb c semicolon && Ascii.eqb c' newline) eqn:Hrep.
    + apply andb_true_iff in Hrep as [->%Ascii.eqb_eq ->%Ascii.eqb_eq].
      rewrite split_cons_sep, IHt'.
      destruct (split_cons_other newline semicolon (String newline t')
                  semicolon_not_newline) as (f & fs & Hs & ->).
      rewrite split_cons_sep in Hs. injection Hs as <- <-.
      rewrite chop_all_but_last_cons by apply split_not_nil. done.
    + specialize (IHc' c'). destruct (Ascii.eqb_spec c newline) as [->|Hc].
      * rewrite !split_cons_sep, IHc'.
        rewrite chop_all_but_last_cons by apply split_not_nil. done.
      * destruct (split_cons_other newline c
                    (drop_trailing_separators (String c' t')) Hc)
          as (f & fs & Hs & ->).
        destruct (split_cons_other newline c (String c' t') Hc)
          as (g & gs & Hg & ->).
        rewrite IHc', Hg in Hs. destruct gs as [|g' gs].
        { cbn in Hs. by injection Hs as <- <-. }
        rewrite chop_all_but_last_cons in Hs by done.
        injection Hs as <- <-.
        rewrite chop_all_but_last_cons by done. f_equal.
        destruct g as [|d g]; [|done].
        (* an empty first line: [c'] is the line break, so [c] is no semicolon *)
        destruct (Ascii.eqb_spec c' newline) as [->|Hc'].
        -- rewrite andb_true_r in Hrep. cbn. by rewrite Hrep.
        -- destruct (split_cons_other newline c' t' Hc') as (h & hs & _ & Hh).
           rewrite Hh in Hg. discriminate.
Qed.

(** X8.  [csv_data.replace(";\n", "\n")] keeps the number of lines and takes
    one trailing semicolon, and no more than one, off every line that is
    followed by a line break; the last line is left as it is. *)
Theorem drop_trailing_separators_lines :
  ∀ s, Py.split newline (drop_trailing_separators s)
       = chop_all_but_last (Py.split newline s).
Proof. intros s. apply drop_trailing_separators_lines_aux. Qed.
(** *** The sample reader and decimal renderings *)

Lemma occurs_chars c s : Py.occurs c s ↔ c ∈ list_ascii_of_string s.
Proof.
  induction s as [|a s IH]; cbn.
  - by rewrite elem_of_nil.
  - rewrite elem_of_cons, IH. split; intros [?|?]; auto.
Qed.

Lemma pretty_N_char_digit d :
  (d < 10)%N →
  Py.digit_of (pretty_N_char d) = Some (Z.of_N d)
  ∧ Ascii.eqb (pretty_N_char d) "_" = false
  ∧ Py.is_space (pretty_N_char d) = false
  ∧ pretty_N_char d ≠ "-"%char ∧ pretty_N_char d ≠ "+"%char
  ∧ pretty_N_char d ≠ semicolon.
Proof.
  intros Hd.
  assert (d = 0 ∨ d = 1 ∨ d = 2 ∨ d = 3 ∨ d = 4 ∨ d = 5 ∨ d = 6 ∨ d = 7
          ∨ d = 8 ∨ d = 9)%N as Hcase by lia.
  repeat (destruct Hcase as [->|Hcase]); try subst d; by vm_compute.
Qed.

Lemma pretty_N_go_occurs c x s :
  Py.occurs c (pretty_N_go x s) →
  Py.occurs c s ∨ ∃ d, (d < 10)%N ∧ c = pretty_N_char d.
Proof.
  revert s. induction (N.lt_wf_0 x) as [x _ IH]; intros s.
  assert (x = 0 ∨ 0 < x)%N as [->|Hx] by lia.
  - rewrite pretty_N_go_0. auto.
  - rewrite pretty_N_go_step by done. intros Hc.
    apply IH in Hc; [|by apply N.div_lt].
    destruct Hc as [[Hc|Hc]|Hc]; [|by left|by right].
    right. exists (x `mod` 10)%N. split; [by apply N.mod_lt|done].
Qed.

Lemma pretty_N_go_digits x s prev :
  (0 < x)%N →
  Py.digits 0 prev (list_ascii_of_string (pretty_N_go x s))
  = Py.digits (Z.of_N x) true (list_ascii_of_string s).
Proof.
  revert s. induction (N.lt_wf_0 x) as [x _ IH]; intros s Hx.
  rewrite pretty_N_go_step by done.
  destruct (pretty_N_char_digit (x `mod` 10)%N) as (Hd & Hu & _);
    [by apply N.mod_lt|].
  pose proof (N.div_mod x 10 ltac:(done)) as Hdm.
  set (q := (x `div` 10)%N) in *. set (r := (x `mod` 10)%N) in *.
  assert (q = 0 ∨ 0 < q)%N as [Hq|Hq] by lia.
  - rewrite Hq, pretty_N_go_0. cbn [list_ascii_of_string Py.digits].
    rewrite Hu, Hd. f_equal. lia.
  - rewrite IH; [|subst q; by apply N.div_lt|done].
    cbn [list_ascii_of_string Py.digits]. rewrite Hu, Hd. f_equal. lia.
Qed.

Lemma lstrip_no_space l :
  Forall (λ c, Py.is_space c = false) l → Py.lstrip l = l.
Proof. destruct 1 as [|c l Hc _]; [done|]. cbn. by rewrite Hc. Qed.

Lemma strip_no_space l :
  Forall (λ c, Py.is_space c = false) l → Py.strip l = l.
Proof.
  intros Hl. unfold Py.strip. rewrite (lstrip_no_space l) by done.
  rewrite lstrip_no_space by (by apply Forall_rev).
  apply rev_involutive.
Qed.

Lemma pretty_positive_chars (p : positive) c :
  c ∈ list_ascii_of_string (pretty p) → ∃ d, (d < 10)%N ∧ c = pretty_N_char d.
Proof.
  unfold pretty, pretty_positive, pretty, pretty_N.
  case_decide; [done|]. intros Hc%occurs_chars.
  apply pretty_N_go_occurs in Hc as [[]|?]. done.
Qed.

Lemma int_unsigned s l :
  Py.strip (list_ascii_of_string s) = l →
  (∀ c r, l = c :: r → c ≠ "-"%char ∧ c ≠ "+"%char) →
  Py.ascii_decimal s = Py.digits 0 false l.
Proof.
  unfold Py.ascii_decimal. intros -> Hl.
  destruct l as [|c r]; [done|].
  destruct (Hl c r eq_refl) as [Hm Hp].
  destruct c as [[] [] [] [] [] [] [] []]; done.
Qed.

Lemma int_negative s r :
  Py.strip (list_ascii_of_string s) = "-"%char :: r →
  Py.ascii_decimal s = Z.opp <$> Py.digits 0 false r.
Proof. unfold Py.ascii_decimal. by intros ->. Qed.

(** The sample reader reads back the decimal rendering of an integer. *)
Lemma ascii_decimal_pretty (z : Z) : Py.ascii_decimal (pretty z) = Some z.
Proof.
  assert (∀ p : positive,
            Py.ascii_decimal (pretty p) = Some (Z.pos p)
            ∧ Py.digits 0 false (list_ascii_of_string (pretty p)) = Some (Z.pos p)
            ∧ Forall (λ c, Py.is_space c = false) (list_ascii_of_string (pretty p)))
    as Hpos.
  { intros p.
    assert (Forall (λ c, Py.is_space c = false) (list_ascii_of_string (pretty p)))
      as Hsp.
    { apply Forall_forall. intros c (d & Hd & ->)%pretty_positive_chars.
      by apply pretty_N_char_digit. }
    assert (Py.digits 0 false (list_ascii_of_string (pretty p)) = Some (Z.pos p))
      as Hdig.
    { unfold pretty, pretty_positive, pretty, pretty_N. case_decide; [done|].
      by rewrite pretty_N_go_digits. }
    split_and!; [|done..].
    rewrite (int_unsigned _ _ (strip_no_space _ Hsp)); [done|].
    intros c r Hl. destruct (pretty_positive_chars p c) as (d & Hd & ->).
    { rewrite Hl. by left. }
    split; by apply pretty_N_char_digit. }
  destruct z as [|p|p].
  - reflexivity.
  - apply Hpos.
  - destruct (Hpos p) as (_ & Hdig & Hsp).
    rewrite (int_negative _ (list_ascii_of_string (pretty p))).
    + by rewrite Hdig.
    + change (list_ascii_of_string (pretty (Z.neg p)))
        with ("-"%char :: list_ascii_of_string (pretty p)).
      apply strip_no_space. by constructor.
Qed.

(** *** A catalogue written out and read back *)

Lemma occurs_app c s t : Py.occurs c (s +:+ t) ↔ Py.occurs c s ∨ Py.occurs c t.
Proof. induction s as [|a s IH]; simpl; [tauto|]. rewrite IH. tauto. Qed.

Lemma pretty_Z_occurs c (z : Z) :
  Py.occurs c (pretty z) → c = "-"%char ∨ ∃ d, (d < 10)%N ∧ c = pretty_N_char d.
Proof.
  destruct z as [|p|p].
  - intros [<-|[]]. right. by exists 0%N.
  - intros Hc%occurs_chars%pretty_positive_chars. by right.
  - intros [<-|Hc%occurs_chars%pretty_positive_chars]; [by left|by right].
Qed.

Lemma pretty_Z_semicolon_free (z : Z) : ¬ Py.occurs semicolon (pretty z).
Proof.
  intros [Hc|(d & Hd & Hc)]%pretty_Z_occurs; [discriminate|].
  symmetry in Hc. by apply pretty_N_char_digit in Hc.
Qed.

Lemma fields_of_render_line k name :
  ¬ Py.occurs semicolon name →
  fields_of (render_line (k, name)) = [pretty k; name].
Proof.
  intros Hn. unfold fields_of, render_line. cbn [fst snd].
  rewrite split_app_sep by apply pretty_Z_semicolon_free.
  by rewrite split_free.
Qed.

Lemma add_entry_render_line m k name :
  py_int (pretty k) = Some k →
  ¬ Py.occurs semicolon name →
  add_entry 1 0 m (render_line (k, name)) = <[k := name]> m
  ∧ line_warning 1 0 (render_line (k, name)) = None.
Proof.
  intros Hint Hn. unfold add_entry, entry, line_warning.
  rewrite fields_of_render_line by done. cbn.
  by rewrite Hint.
Qed.

Lemma foldl_insert_list_to_map (entries : list (Z * string)) (m : gmap Z string) :
  foldl (λ m e, <[e.1 := e.2]> m) m entries
  = list_to_map (reverse entries) ∪ m.
Proof.
  revert m. induction entries as [|[k v] es IH]; intros m.
  - cbn. by rewrite (left_id_L ∅ (∪)).
  - cbn [foldl]. rewrite IH, reverse_cons, list_to_map_app. cbn.
    rewrite <-(assoc_L (∪)). f_equal.
    rewrite insert_union_singleton_l. rewrite insert_empty. done.
Qed.

(** X3.  Take a catalogue response made of the header [api_id;data_name]
    and one line [id;name] per entry, where the interpreter's [int] reads
    the decimal rendering of every id back as that id and the names hold
    neither a semicolon nor a line break.  It is read back as the map of
    these entries, a later entry for an id replacing an earlier one; one
    request is posted and no warning is logged. *)
Theorem catalog_round_trip :
  ∀ server key w (entries : list (Z * string)),
    let rq := ReqAllDataTypes key in
    status_code (server rq) = 200 →
    text (server rq) = render_catalog entries →
    Forall (λ e, py_int (pretty e.1) = Some e.1
                 ∧ ¬ Py.occurs semicolon e.2 ∧ ¬ Py.occurs newline e.2)
      entries →
    get_all_data_types server key w
    = (Ok (list_to_map (reverse entries)), posted w rq).
Proof.
  intros server key w entries rq H200 Htext Hnames.
  assert (Py.split newline (text (server rq))
          = "api_id;data_name" :: (render_line <$> entries)) as Hlines.
  { rewrite Htext. unfold render_catalog.
    apply split_join; [done|].
    constructor.
    - intros Hc. vm_compute in Hc. repeat (destruct Hc as [Hc|Hc]; [discriminate|]). done.
    - apply Forall_fmap. eapply Forall_impl; [exact Hnames|].
      intros [k name] (_ & _ & Hnl). unfold render_line. cbn.
      rewrite occurs_app. cbn. intros [Hc|[Hc|Hc]].
      + by apply pretty_Z_newline_free in Hc.
      + discriminate.
      + done. }
  rewrite (get_all_data_types_200 _ _ _ _ _ 1%nat 0%nat H200 Hlines)
    by reflexivity.
  assert (∀ m, catalog_of 1 0 m (render_line <$> entries)
               = foldl (λ m e, <[e.1 := e.2]> m) m entries
               ∧ warned 1 0 (render_line <$> entries) = []) as Hfold.
  { clear -Hnames.
    induction Hnames as [|[k name] es (Hint & Hsc & _) _ IH]; intros m.
    - done.
    - cbn [fmap list_fmap]. rewrite catalog_of_cons, warned_cons.
      destruct (add_entry_render_line m k name Hint Hsc) as [-> ->].
      cbn in Hsc |- *. apply IH. }
  destruct (Hfold ∅) as [-> ->].
  rewrite foldl_insert_list_to_map, (right_id_L ∅ (∪)), app_nil_r. done.
Qed.

(** *** The header line *)

Lemma index_None x l : Py.index x l = None ↔ x ∉ l.
Proof.
  induction l as [|y l IH]; cbn.
  - split; [intros _; apply not_elem_of_nil|done].
  - rewrite not_elem_of_cons. destruct (String.eqb_spec y x) as [->|Hne].
    + split; [done|]. intros [? _]. done.
    + rewrite fmap_None, IH. split; [auto|tauto].
Qed.

Lemma index_Some x l i :
  Py.index x l = Some i ↔ l !! i = Some x ∧ x ∉ take i l.
Proof.
  revert i. induction l as [|y l IH]; intros i; cbn.
  - split; [done|]. by intros [? _].
  - destruct (String.eqb_spec y x) as [->|Hne].
    + split.
      * intros [= <-]. split; [done|]. apply not_elem_of_nil.
      * intros [Hi Hfirst]. destruct i as [|i]; [done|].
        cbn in Hfirst. apply not_elem_of_cons in Hfirst as [? _]. done.
    + rewrite fmap_Some. split.
      * intros (j & Hj & ->). apply IH in Hj as [Hl Hfirst]. cbn.
        split; [done|]. apply not_elem_of_cons. auto.
      * intros [Hi Hfirst]. destruct i as [|i]; cbn in *; [congruence|].
        exists i. split; [|done]. apply IH. split; [done|].
        apply not_elem_of_cons in Hfirst as [_ ?]. done.
Qed.

(** X4.  With status 200, the catalogue is returned exactly when the first
    line names both [data_name] and [api_id]; otherwise the call fails with
    the [ValueError] of the first missing name ([data_name] is looked up
    first), after its one request and without a warning. *)
Theorem catalog_needs_both_header_fields :
  ∀ server key w hdr lines,
    let rq := ReqAllDataTypes key in
    status_code (server rq) = 200 →
    Py.split newline (text (server rq)) = hdr :: lines →
    ((∃ cat w', get_all_data_types server key w = (Ok cat, w'))
     ↔ "data_name" ∈ fields_of hdr ∧ "api_id" ∈ fields_of hdr)
    ∧ ("data_name" ∉ fields_of hdr →
       get_all_data_types server key w
       = (Raise (ValueError "data_name"), posted w rq))
    ∧ ("data_name" ∈ fields_of hdr → "api_id" ∉ fields_of hdr →
       get_all_data_types server key w
       = (Raise (ValueError "api_id"), posted w rq)).
Proof.
  intros server key w hdr lines rq H200 Hsplit.
  assert (∀ x, x ∈ fields_of hdr → ∃ i, Py.index x (fields_of hdr) = Some i)
    as Hfound.
  { intros x Hx. destruct (Py.index x (fields_of hdr)) as [i|] eqn:Hi; [eauto|].
    by apply index_None in Hi. }
  assert ("data_name" ∉ fields_of hdr →
          get_all_data_types server key w
          = (Raise (ValueError "data_name"), posted w rq)) as Hdn.
  { intros Hno%index_None.
    unfold get_all_data_types, post, mbind, M_bind, bind.
    rewrite check_response_status_200 by done. fold rq. rewrite Hsplit, loop_cons.
    unfold loop_body, loop_init. cbn [header]. unfold fields_of in Hno.
    by rewrite Hno. }
  assert ("data_name" ∈ fields_of hdr → "api_id" ∉ fields_of hdr →
          get_all_data_types server key w
          = (Raise (ValueError "api_id"), posted w rq)) as Hai.
  { intros [i Hi]%Hfound Hno%index_None.
    unfold get_all_data_types, post, mbind, M_bind, bind.
    rewrite check_response_status_200 by done. fold rq. rewrite Hsplit, loop_cons.
    unfold loop_body, loop_init. cbn [header]. unfold fields_of in Hi, Hno.
    by rewrite Hi, Hno. }
  split_and!; [|done..]. split.
  - intros (cat & w' & Hrun).
    destruct (decide ("data_name" ∈ fields_of hdr)) as [Hd|Hd];
      [|rewrite Hdn in Hrun by done; discriminate].
    destruct (decide ("api_id" ∈ fields_of hdr)) as [Ha|Ha];
      [done|rewrite Hai in Hrun by done; discriminate].
  - intros [[dn Hd]%Hfound [ai Ha]%Hfound].
    rewrite (get_all_data_types_200 _ _ _ _ _ dn ai H200 Hsplit Hd Ha). eauto.
Qed.

(** *** What the catalogue holds *)

Lemma catalog_of_Some dn ai lines m k name :
  catalog_of dn ai m lines !! k = Some name →
  m !! k = Some name ∨ ∃ l, l ∈ lines ∧ entry dn ai l = Some (k, name).
Proof.
  revert m. induction lines as [|l lines IH]; intros m; [by left|].
  rewrite catalog_of_cons. intros [Hm|(l' & Hl' & He)]%IH.
  - unfold add_entry in Hm. destruct (entry dn ai l) as [[k' n]|] eqn:He;
      [|by left].
    destruct (decide (k' = k)) as [->|Hk].
    + rewrite lookup_insert_eq in Hm. injection Hm as ->.
      right. exists l. split; [by left|done].
    + rewrite lookup_insert_ne in Hm by done. by left.
  - right. exists l'. split; [by right|done].
Qed.

Lemma catalog_of_None dn ai lines m k :
  catalog_of dn ai m lines !! k = None ↔
  m !! k = None ∧ ∀ l name, l ∈ lines → entry dn ai l ≠ Some (k, name).
Proof.
  revert m. induction lines as [|l lines IH]; intros m.
  - split; [|by intros [? _]]. intros Hm. split; [done|].
    by intros l name ?%elem_of_nil.
  - rewrite catalog_of_cons, IH. unfold add_entry.
    destruct (entry dn ai l) as [[k' n]|] eqn:He.
    + destruct (decide (k' = k)) as [->|Hk].
      * rewrite lookup_insert_eq. split; [by intros [? _]|].
        intros [_ Hno]. by destruct (Hno l n ltac:(by left)).
      * rewrite lookup_insert_ne by done. split.
        -- intros [Hm Hno]. split; [done|].
           intros l' name [->|Hl']%elem_of_cons; [congruence|by apply Hno].
        -- intros [Hm Hno]. split; [done|]. intros l' name Hl'.
           apply Hno. by right.
    + split.
      * intros [Hm Hno]. split; [done|].
        intros l' name [->|Hl']%elem_of_cons; [congruence|by apply Hno].
      * intros [Hm Hno]. split; [done|]. intros l' name Hl'.
        apply Hno. by right.
Qed.

(** X5.  With status 200 and a header naming both fields, every entry of
    the catalogue comes from a data line that has enough fields and a valid
    id, and an id is absent from the catalogue exactly when no such line
    gives it. *)
Theorem catalog_holds_exactly_the_valid_lines :
  ∀ server key w hdr lines dn ai,
    let rq := ReqAllDataTypes key in
    status_code (server rq) = 200 →
    Py.split newline (text (server rq)) = hdr :: lines →
    Py.index "data_name" (fields_of hdr) = Some dn →
    Py.index "api_id" (fields_of hdr) = Some ai →
    ∃ cat w',
      get_all_data_types server key w = (Ok cat, w')
      ∧ (∀ k name, cat !! k = Some name →
                   ∃ l, l ∈ lines ∧ entry dn ai l = Some (k, name))
      ∧ (∀ k, cat !! k = None ↔
              ∀ l name, l ∈ lines → entry dn ai l ≠ Some (k, name)).
Proof.
  intros server key w hdr lines dn ai rq H200 Hsplit Hdn Hai.
  eexists _, _. split_and!.
  - by apply (get_all_data_types_200 _ _ _ hdr lines dn ai).
  - intros k name [Hm|?]%catalog_of_Some; [|done].
    by rewrite lookup_empty in Hm.
  - intros k. rewrite catalog_of_None, lookup_empty. tauto.
Qed.

(** *** The names of the requested ids *)

Lemma lookup_names_world (cat : gmap Z string) ids w :
  (lookup_names cat ids w).2 = w.
Proof.
  induction ids as [|i ids IH]; [done|].
  cbn. unfold mbind, M_bind, bind. destruct (cat !! i); cbn; [|done].
  destruct (lookup_names cat ids w) as [[names|e] w1]; cbn in *; done.
Qed.

(** X6.  The name lookup of [main] succeeds exactly when every requested id
    is in the catalogue, and then gives the names in the order of the ids;
    it fails with the [KeyError] of the first id, in that order, that is
    not in the catalogue.  It leaves the world unchanged. *)
Theorem lookup_names_in_order :
  ∀ (cat : gmap Z string) ids w,
    (∀ names w', lookup_names cat ids w = (Ok names, w') ↔
                 w' = w ∧ Forall2 (λ i name, cat !! i = Some name) ids names)
    ∧ (∀ i w', lookup_names cat ids w = (Raise (KeyError i), w') ↔
               w' = w ∧ ∃ pre post, ids = pre ++ i :: post
                                    ∧ Forall (λ j, is_Some (cat !! j)) pre
                                    ∧ cat !! i = None).
Proof.
  intros cat ids w. induction ids as [|i ids [IHok IHerr]].
  - split.
    + intros names w'. cbn. split.
      * intros [= <- <-]. by split; [|constructor].
      * intros [-> ->%Forall2_nil_inv_l]. done.
    + intros i w'. cbn. split; [done|].
      intros [_ (pre & post & Hids & _)]. by destruct pre.
  - split.
    + intros names w'. cbn. unfold mbind, M_bind, bind.
      destruct (cat !! i) as [name|] eqn:Hi; cbn.
      * destruct (lookup_names cat ids w) as [[ns|e] w1]; cbn; split.
        -- intros [= <- <-]. destruct (proj1 (IHok ns w1) eq_refl) as [-> Hns].
           split; [done|]. by constructor.
        -- intros [-> (name' & ns' & Hn & Hns & ->)%Forall2_cons_inv_l].
           pose proof (proj2 (IHok ns' w) (conj eq_refl Hns)) as Hrun.
           injection Hrun as -> ->.
           assert (name = name') as -> by congruence. done.
        -- discriminate.
        -- intros [-> (name' & ns' & Hn & Hns & ->)%Forall2_cons_inv_l].
           pose proof (proj2 (IHok ns' w) (conj eq_refl Hns)) as Hrun.
           discriminate.
      * split; [discriminate|].
        intros [_ (name' & ns' & Hn & _)%Forall2_cons_inv_l]. congruence.
    + intros j w'. cbn. unfold mbind, M_bind, bind.
      destruct (cat !! i) as [name|] eqn:Hi; cbn.
      * destruct (lookup_names cat ids w) as [[ns|e] w1]; cbn; split.
        -- discriminate.
        -- intros [-> (pre & post & Hids & Hpre & Hj)].
           destruct pre as [|p pre]; cbn in Hids; injection Hids as -> ->;
             [congruence|].
           apply Forall_cons in Hpre as [_ Hpre].
           assert ((Ok ns, w1) = (Raise (KeyError j), w)) as Hrun
             by (apply IHerr; eauto 10).
           discriminate.
        -- intros [= -> <-].
           destruct (proj1 (IHerr j w1) eq_refl)
             as [-> (pre & post & -> & Hpre & Hj)].
           split; [done|]. exists (i :: pre), post. split_and!; [done| |done].
           constructor; [by rewrite Hi|done].
        -- intros [-> (pre & post & Hids & Hpre & Hj)].
           destruct pre as [|p pre]; cbn in Hids; injection Hids as -> ->;
             [congruence|].
           apply Forall_cons in Hpre as [_ Hpre].
           assert ((Raise e, w1) = (Raise (KeyError j), w)) as Hrun
             by (apply IHerr; eauto 10).
           by injection Hrun as -> ->.
      * split.
        -- intros [= <- <-]. split; [done|]. exists [], ids. by split_and!.
        -- intros [-> (pre & post & Hids & Hpre & Hj)].
           destruct pre as [|p pre]; cbn in Hids; injection Hids as -> ->; [done|].
           apply Forall_cons in Hpre as [[? Hp] _]. congruence.
Qed.

(** *** Requests of a run *)

Lemma get_data_world server inflate key ids d1 d2 w :
  (get_data server inflate key ids d1 d2 w).2
  = posted w (ReqGetData key ids d1 d2).
Proof.
  unfold get_data, post, mbind, M_bind, bind, check_response_status.
  case_decide; cbn; [|done]. by destruct (inflate _).
Qed.

(** X7.  A run of [main] posts the catalogue request, then at most the data
    request, and nothing else.  Without ids it posts the catalogue request
    only and a listing it returns is the fetched catalogue; a run that ends
    with a table has posted both.  The warnings are those of the catalogue
    fetch. *)
Theorem main_posts_at_most_two_requests :
  ∀ server inflate read_csv args w,
    let rq1 := ReqAllDataTypes (api_key args) in
    let rq2 := ReqGetData (api_key args) (data_id args)
                 (date_from args) (date_to args) in
    let run := main server inflate read_csv args w in
    (requests run.2 = requests w ++ [rq1]
     ∨ requests run.2 = requests w ++ [rq1; rq2])
    ∧ (data_id args = [] → requests run.2 = requests w ++ [rq1])
    ∧ (∀ df reports, run.1 = Ok (Table df reports) →
                     requests run.2 = requests w ++ [rq1; rq2])
    ∧ (∀ cat, run.1 = Ok (Listing cat) →
              data_id args = []
              ∧ get_all_data_types server (api_key args) w = (Ok cat, run.2))
    ∧ warnings run.2
      = warnings (get_all_data_types server (api_key args) w).2.
Proof.
  intros server inflate read_csv args w rq1 rq2 run. subst run.
  unfold main, mbind, M_bind, bind.
  pose proof (get_all_data_types_requests server (api_key args) w) as Hreq.
  destruct (get_all_data_types server (api_key args) w) as [[cat|e] w1] eqn:Hcat;
    cbn [fst snd] in *.
  2: { split_and!; [by left|done|done|done|done]. }
  destruct (data_id args) as [|i ids] eqn:Hids.
  { cbn. split_and!; [by left|done|done| |done].
    intros cat' [= <-]. done. }
  pose proof (lookup_names_world cat (i :: ids) w1) as Hnames.
  destruct (lookup_names cat (i :: ids) w1) as [[names|e] w2]; cbn in Hnames;
    subst w2; cbn [fst snd].
  2: { split_and!; [by left|done|done|done|done]. }
  pose proof (get_data_world server inflate (api_key args) (i :: ids)
                (date_from args) (date_to args) w1) as Hdata.
  destruct (get_data _ _ _ _ _ _ w1) as [[csv|e] w3]; cbn in Hdata; subst w3;
    cbn [fst snd].
  2: { cbn. rewrite Hreq, <-app_assoc.
       split_and!; [by right|done|done|done|done]. }
  destruct (read_csv _ _) as [df|]; cbn -[remove_anomalies resample ffill].
  2: { rewrite Hreq, <-app_assoc. split_and!; [by right|done|done|done|done]. }
  destruct (remove_anomalies _) as [df' reports]. cbn -[ffill].
  rewrite Hreq, <-app_assoc. split_and!; [by right|done|done|done|done].
Qed.

(** *** The anomaly loop as a whole *)

Lemma keep_sublist j df : rows (keep j df) `sublist_of` rows df.
Proof. unfold keep, loc. cbn [rows]. apply sublist_filter. Qed.

Lemma sum_removed_snoc out r :
  sum_list (removed_count <$> (out ++ [r]))
  = (sum_list (removed_count <$> out) + removed_count r)%nat.
Proof. induction out as [|m out IH]; cbn in *; lia. Qed.

Lemma anomaly_pass_fst df out j :
  anomaly_pass (df, out) j
  = (keep j df,
     out ++ [if decide (length (rows (keep j df)) ≠ length (rows df))
             then Removed (length (rows df) - length (rows (keep j df)))
                    (default EmptyString (columns df !! j))
             else NoAnomalies (default EmptyString (columns df !! j))]).
Proof. reflexivity. Qed.

Lemma remove_anomalies_over_invariant cols df :
  let res := remove_anomalies_over cols df in
  columns res.1 = columns df
  ∧ rows res.1 `sublist_of` rows df
  ∧ length res.2 = length cols
  ∧ length (rows df)
    = (length (rows res.1) + sum_list (removed_count <$> res.2))%nat
  ∧ Forall (λ r, match r with Removed n _ => (0 < n)%nat | NoAnomalies _ => True end)
      res.2.
Proof.
  induction cols as [|j cols IH] using rev_ind.
  - cbn. split_and!; [done|done|done|lia|constructor].
  - rewrite remove_anomalies_over_snoc.
    destruct (remove_anomalies_over cols df) as [df' out]. cbn [fst snd] in *.
    destruct IH as (Hc & Hsub & Hlen & Hsum & Hpos).
    rewrite anomaly_pass_fst. cbn [fst snd].
    pose proof (keep_sublist j df') as Hk.
    pose proof (sublist_length _ _ Hk) as Hle.
    split_and!.
    + done.
    + by etrans.
    + rewrite !length_app, Hlen. done.
    + rewrite sum_removed_snoc. case_decide; cbn [removed_count]; lia.
    + apply Forall_app. split; [done|]. constructor; [|constructor].
      case_decide; [lia|done].
Qed.

(** X10.  The anomaly loop keeps the columns, returns rows of the input in
    their order, and gives one report per column; the counts of the
    "Removed" reports add up to the number of rows that are gone, and a
    "Removed" report never carries a zero. *)
Theorem remove_anomalies_accounts_for_every_row :
  ∀ df,
    let res := remove_anomalies df in
    columns res.1 = columns df
    ∧ rows res.1 `sublist_of` rows df
    ∧ length res.2 = length (columns df)
    ∧ length (rows df)
      = (length (rows res.1) + sum_list (removed_count <$> res.2))%nat
    ∧ Forall (λ r, match r with
                   | Removed n _ => (0 < n)%nat
                   | NoAnomalies _ => True
                   end) res.2.
Proof.
  intros df. unfold remove_anomalies.
  pose proof (remove_anomalies_over_invariant (seq 0 (length (columns df))) df)
    as Hinv.
  by rewrite length_seq in Hinv.
Qed.

(** *** A column with fewer than two values *)

Lemma foldl_anomaly_pass_fst cols df out :
  (foldl anomaly_pass (df, out) cols).1 = (remove_anomalies_over cols df).1.
Proof.
  unfold remove_anomalies_over. revert df out.
  induction cols as [|j cols IH]; intros df out; [done|].
  cbn [foldl]. rewrite !anomaly_pass_fst. rewrite IH. symmetry. apply IH.
Qed.

Lemma remove_anomalies_over_app l1 l2 df :
  (remove_anomalies_over (l1 ++ l2) df).1
  = (remove_anomalies_over l2 (remove_anomalies_over l1 df).1).1.
Proof.
  unfold remove_anomalies_over at 1. rewrite foldl_app.
  fold (remove_anomalies_over l1 df).
  destruct (remove_anomalies_over l1 df) as [df1 out1].
  apply foldl_anomaly_pass_fst.
Qed.

Lemma remove_anomalies_over_cons j cols df :
  (remove_anomalies_over (j :: cols) df).1
  = (remove_anomalies_over cols (keep j df)).1.
Proof.
  unfold remove_anomalies_over at 1. cbn [foldl]. rewrite anomaly_pass_fst.
  apply foldl_anomaly_pass_fst.
Qed.

Lemma present_sublist (s1 s2 : list cell) :
  s1 `sublist_of` s2 → (length (present s1) ≤ length (present s2))%nat.
Proof.
  induction 1 as [|c s1 s2 _ IH|c s1 s2 _ IH]; [done|..];
    unfold present in *; cbn; destruct c; cbn; lia.
Qed.

(** X11.  When some column has fewer than two present values, the anomaly
    loop returns a table without rows. *)
Theorem column_with_one_value_empties_the_table :
  ∀ df j,
    (j < length (columns df))%nat →
    (length (present (column j df)) ≤ 1)%nat →
    rows (remove_anomalies df).1 = [].
Proof.
  intros df j Hj Hfew. unfold remove_anomalies.
  assert (seq 0 (length (columns df))
          = seq 0 j ++ j :: seq (S j) (length (columns df) - S j)) as ->.
  { replace (length (columns df)) with (j + S (length (columns df) - S j))%nat
      at 1 by lia.
    by rewrite seq_app. }
  rewrite remove_anomalies_over_app, remove_anomalies_over_cons.
  set (df1 := (remove_anomalies_over (seq 0 j) df).1).
  assert (rows (keep j df1) = []) as Hempty.
  { apply keep_undefined_deviation. etrans; [|exact Hfew].
    apply present_sublist. unfold column. apply fmap_sublist.
    apply remove_anomalies_over_invariant. }
  apply sublist_nil_r. rewrite <-Hempty.
  apply remove_anomalies_over_invariant.
Qed.

(** *** Forward fill twice *)

Lemma fill_row_idempotent last r :
  fill_row last (fill_row last r) = fill_row last r.
Proof.
  unfold fill_row. cbn [stamp cells]. f_equal.
  apply list_eq. intros j. rewrite !list_lookup_imap.
  destruct (cells r !! j) as [[v|]|]; cbn; [done| |done].
  by destruct (default None (last !! j)).
Qed.

Lemma ffill_rows_idempotent last rs :
  ffill_rows last (ffill_rows last rs) = ffill_rows last rs.
Proof.
  revert last. induction rs as [|r rs IH]; intros last; [done|].
  cbn [ffill_rows]. rewrite fill_row_idempotent. f_equal. apply IH.
Qed.

(** X14.  Forward filling a table twice gives the same table as filling it
    once. *)
Theorem ffill_idempotent : ∀ df, ffill (ffill df) = ffill df.
Proof. intros df. unfold ffill. cbn [columns rows]. by rewrite ffill_rows_idempotent. Qed.

(** *** The shape of a resampled table *)

Lemma resample_well_formed freq df : well_formed (resample freq df).
Proof.
  intros r' Hr'. rewrite (resample_row _ _ _ Hr'). cbn [cells].
  unfold bin_mean. by rewrite length_fmap, length_seq.
Qed.

Lemma normalize_multiple t : normalize t `mod` day = 0.
Proof.
  unfold normalize. rewrite Zminus_mod, Zmod_mod, Z.sub_diag. done.
Qed.

(** X15.  For a positive step, resampling keeps the columns, gives every
    output row one cell per column, and gives no row for a table without
    rows; when the step divides a day, every output index entry is a
    multiple of the step, that is, the buckets start on the step's grid
    counted from midnight. *)
Theorem resample_shape :
  ∀ freq df,
    0 < freq →
    columns (resample freq df) = columns df
    ∧ well_formed (resample freq df)
    ∧ (rows df = [] → rows (resample freq df) = [])
    ∧ (day `mod` freq = 0 →
       ∀ r', r' ∈ rows (resample freq df) → stamp r' `mod` freq = 0).
Proof.
  intros freq df Hf. split_and!.
  - done.
  - apply resample_well_formed.
  - intros Hnil. unfold resample. by rewrite Hnil.
  - intros Hday r' Hr'.
    destruct (stamp <$> rows df) as [|t ts] eqn:Hs.
    { unfold resample in Hr'. cbn [rows] in Hr'. rewrite Hs in Hr'.
      by apply elem_of_nil in Hr'. }
    assert (stamp r' ∈ stamp <$> rows (resample freq df)) as Hin
      by (apply list_elem_of_fmap; eauto).
    rewrite (resample_stamps freq df t ts Hs), range_edges_eq in Hin by done.
    unfold bin_labels in Hin.
    apply list_elem_of_fmap in Hin as (k & -> & _).
    set (first := foldr Z.min t ts).
    assert (normalize first `mod` freq = 0) as Horigin.
    { pose proof (normalize_multiple first) as Hn.
      apply Z.mod_divide in Hn; [|done]. apply Z.mod_divide in Hday; [|lia].
      apply Z.mod_divide; [lia|]. by etrans. }
    pose proof (Z.div_mod (first - normalize first) freq ltac:(lia)) as Hdm.
    pose proof (Z.div_mod (normalize first) freq ltac:(lia)) as Hdn.
    rewrite Horigin in Hdn.
    replace (first - (first - normalize first) `mod` freq + Z.of_nat k * freq)
      with ((normalize first `div` freq
             + (first - normalize first) `div` freq + Z.of_nat k) * freq) by lia.
    apply Z.mod_mul. lia.
Qed.

(** *** The table [main] ends with *)


End FurtherProperties.

(** ** The further statements at sample inputs *)

Lemma catalog_round_trip_witness :
  status_code (rendered_server (ReqAllDataTypes "secret")) = 200
  ∧ ∃ cat,
      get_all_data_types (R := sample_runtime) rendered_server "secret" fresh_world
      = (Ok cat, posted fresh_world (ReqAllDataTypes "secret"))
      ∧ cat !! 1 = Some "Load forecast" ∧ cat !! (-2) = Some "Wind".
Proof.
  split; [reflexivity|].
  exists (list_to_map (reverse sample_entries)). split.
  - apply (catalog_round_trip (R := sample_runtime) rendered_server "secret" fresh_world sample_entries).
    + reflexivity.
    + reflexivity.
    + repeat constructor; try apply ascii_decimal_pretty; cbn; intros H;
        repeat (destruct H as [H|H]; [discriminate|]); exact H.
  - split; vm_compute; reflexivity.
Defined.

Lemma catalog_needs_both_header_fields_witness :
  status_code (empty_server (ReqAllDataTypes "secret")) = 200
  ∧ get_all_data_types (R := sample_runtime) empty_server "secret" fresh_world
    = (Raise (ValueError "data_name"),
       posted fresh_world (ReqAllDataTypes "secret")).
Proof.
  split; [reflexivity|].
  destruct (catalog_needs_both_header_fields (R := sample_runtime) empty_server "secret" fresh_world
              "" [] eq_refl eq_refl) as (_ & Hmissing & _).
  apply Hmissing. vm_compute. intros H. inversion H as [|? ? ? H']. inversion H'.
Defined.

Lemma catalog_holds_exactly_the_valid_lines_witness :
  status_code (sample_server (ReqAllDataTypes "secret")) = 200
  ∧ ∃ cat w',
      get_all_data_types (R := sample_runtime) sample_server "secret" fresh_world = (Ok cat, w')
      ∧ (cat !! 2 = None ↔
         ∀ l name, l ∈ ["1;Load;MW"; "x;Bad;MW"; "2"; "1;Load forecast;MW"] →
                   entry (R := sample_runtime) 1 0 l ≠ Some (2, name)).
Proof.
  split; [reflexivity|].
  destruct (catalog_holds_exactly_the_valid_lines (R := sample_runtime) sample_server "secret"
              fresh_world "api_id;data_name;unit"
              ["1;Load;MW"; "x;Bad;MW"; "2"; "1;Load forecast;MW"] 1%nat 0%nat
              eq_refl eq_refl eq_refl eq_refl) as (cat & w' & Hrun & _ & Hnone).
  exists cat, w'. split; [exact Hrun | exact (Hnone 2)].
Defined.

Lemma column_with_one_value_empties_the_table_witness :
  (0 < length (columns single_row))%nat
  ∧ (length (present (column 0 single_row)) ≤ 1)%nat
  ∧ rows (remove_anomalies single_row).1 = [].
Proof.
  assert (0 < length (columns single_row))%nat as Hj by (vm_compute; lia).
  assert (length (present (column 0 single_row)) ≤ 1)%nat as Hfew
    by (vm_compute; lia).
  split; [exact Hj|]. split; [exact Hfew|].
  exact (column_with_one_value_empties_the_table single_row 0%nat Hj Hfew).
Defined.

Lemma resample_shape_witness :
  0 < timedelta_hours 4 ∧ day `mod` timedelta_hours 4 = 0
  ∧ well_formed (resample (timedelta_hours 4) sparse_day)
  ∧ ∀ r', r' ∈ rows (resample (timedelta_hours 4) sparse_day) →
          stamp r' `mod` timedelta_hours 4 = 0.
Proof.
  assert (0 < timedelta_hours 4) as Hf by reflexivity.
  assert (day `mod` timedelta_hours 4 = 0) as Hday by reflexivity.
  split; [exact Hf|]. split; [exact Hday|].
  destruct (resample_shape (timedelta_hours 4) sparse_day Hf)
    as (_ & Hwf & _ & Hgrid).
  split; [exact Hwf | exact (Hgrid Hday)].
Defined.

